(** * infinite-notepad: the drawing surface and the typed-math handler

    A shallow embedding of [src/main.py].  Two objects carry all the state
    the program has: the [CanvasWidget] (a raster image, three tool presets
    and the stroke session) and the notes editor driven by
    [MainWindow.autoEvaluateTypedMath].

    Three pieces of behaviour live in libraries and not in the program:
    the rasteriser behind [QPainter.drawLine], the sizes for which Qt gives
    a [QImage] its buffer, and [sympy.sympify], which may return, raise an
    exception of class [Exception], raise one outside that class, or not
    come back.  They are taken as parameters, so that every statement holds
    for whatever those libraries do. *)

From Stdlib Require Import ZArith List Bool String Ascii Lia Arith.
Import ListNotations.

Open Scope string_scope.
Open Scope Z_scope.

(** ** Qt value types *)

(** [QColor]: the four 8-bit channels read by [red()], [green()], [blue()]
    and [alpha()]. *)
Record QColor : Type := mkQColor
  { red : Z; green : Z; blue : Z; alpha : Z }.

(** [QColor(r, g, b)]: the alpha argument defaults to 255. *)
Definition QColor3 (r g b : Z) : QColor := mkQColor r g b 255.

(** [QColor(r, g, b, a)]. *)
Definition QColor4 (r g b a : Z) : QColor := mkQColor r g b a.

(** [Qt.white]. *)
Definition Qt_white : QColor := QColor3 255 255 255.

(** A pixel of a [Format_ARGB32] image: 0xAARRGGBB. *)
Definition QRgb : Type := Z.

Definition qRgba (r g b a : Z) : QRgb :=
  Z.lor (Z.shiftl (Z.land a 255) 24)
    (Z.lor (Z.shiftl (Z.land r 255) 16)
       (Z.lor (Z.shiftl (Z.land g 255) 8) (Z.land b 255))).

Definition QColor_rgba (c : QColor) : QRgb :=
  qRgba (red c) (green c) (blue c) (alpha c).

Record QPoint : Type := mkQPoint { px : Z; py : Z }.

(** [QPoint()]: the origin. *)
Definition QPoint0 : QPoint := mkQPoint 0 0.

Inductive PenStyle : Type := NoPen | SolidLine | DashLine | DotLine.
Inductive PenCapStyle : Type := FlatCap | SquareCap | RoundCap.
Inductive PenJoinStyle : Type := MiterJoin | BevelJoin | RoundJoin.

(** [QPen(color, width, style, cap, join)]. *)
Record QPen : Type := mkQPen
  { pen_qcolor : QColor;
    pen_qwidth : Z;
    pen_style : PenStyle;
    pen_cap : PenCapStyle;
    pen_join : PenJoinStyle }.

(** [QImage]: a buffer of [img_width * img_height] pixels, row after row. *)
Record QImage : Type := mkQImage
  { img_width : nat; img_height : nat; img_pixels : list QRgb }.

(** [QImage(width, height, Format_ARGB32)].  A non-positive dimension gives
    the null image, and so does a size Qt refuses or cannot allocate:
    [QImage_allocates] stands for Qt's size limits and the allocation of
    the buffer, which are the toolkit's and the machine's.  The content of
    a fresh image is unspecified until it is filled; the placeholder here
    is 0. *)
Definition QImage_new (QImage_allocates : Z -> Z -> bool) (width height : Z)
  : QImage :=
  if (0 <? width) && (0 <? height) && QImage_allocates width height
  then mkQImage (Z.to_nat width) (Z.to_nat height)
         (repeat 0 (Z.to_nat width * Z.to_nat height))
  else mkQImage 0 0 [].

(** [image.fill(color)]: every pixel becomes the colour, the dimensions
    stay. *)
Definition QImage_fill (c : QColor) (img : QImage) : QImage :=
  mkQImage (img_width img) (img_height img)
    (repeat (QColor_rgba c) (List.length (img_pixels img))).

(** [map] with the index of the element. *)
Fixpoint mapi_from {A B : Type} (f : nat -> A -> B) (i : nat) (l : list A)
  : list B :=
  match l with
  | [] => []
  | x :: t => f i x :: mapi_from f (S i) t
  end.

(** [Qt.LeftButton]. *)
Definition Qt_LeftButton : Z := 1.

(** [QMouseEvent]: the button that caused the event, the buttons held while
    it happened (a bit mask), and the position. *)
Record QMouseEvent : Type := mkQMouseEvent
  { button : Z; buttons : Z; pos : QPoint }.

(** ** The drawing surface *)

Record CanvasWidget : Type := mkCanvasWidget
  { image : QImage;
    current_tool : string;
    pen_color : QColor;
    highlight_color : QColor;
    eraser_color : QColor;
    pen_width : Z;
    highlighter_width : Z;
    eraser_width : Z;
    drawing : bool;
    last_point : QPoint }.

(** [CanvasWidget.__init__(width, height)].  [setFixedSize] and, in the
    methods below, [update] concern the widget's geometry and its
    repainting; they leave the fields of the surface alone.  PyQt takes
    [width] and [height] as C ints and raises for a Python integer outside
    their range, in which case no widget exists. *)
Definition CanvasWidget_init (QImage_allocates : Z -> Z -> bool)
    (width height : Z) : CanvasWidget :=
  {| image := QImage_fill Qt_white (QImage_new QImage_allocates width height);
     current_tool := "pen";
     pen_color := QColor3 0 0 0;
     highlight_color := QColor4 255 255 0 128;
     eraser_color := QColor3 255 255 255;
     pen_width := 3;
     highlighter_width := 20;
     eraser_width := 20;
     drawing := false;
     last_point := QPoint0 |}.

(** The defaults of the constructor: [width=2000, height=2000]. *)
Definition CanvasWidget_default (QImage_allocates : Z -> Z -> bool)
  : CanvasWidget :=
  CanvasWidget_init QImage_allocates 2000 2000.

Definition setTool (self : CanvasWidget) (tool_name : string) : CanvasWidget :=
  {| image := image self;
     current_tool := tool_name;
     pen_color := pen_color self;
     highlight_color := highlight_color self;
     eraser_color := eraser_color self;
     pen_width := pen_width self;
     highlighter_width := highlighter_width self;
     eraser_width := eraser_width self;
     drawing := drawing self;
     last_point := last_point self |}.

Definition setPenColor (self : CanvasWidget) (color : QColor) : CanvasWidget :=
  {| image := image self;
     current_tool := current_tool self;
     pen_color := color;
     highlight_color := QColor4 (red color) (green color) (blue color) 128;
     eraser_color := eraser_color self;
     pen_width := pen_width self;
     highlighter_width := highlighter_width self;
     eraser_width := eraser_width self;
     drawing := drawing self;
     last_point := last_point self |}.

Definition mousePressEvent (self : CanvasWidget) (event : QMouseEvent)
  : CanvasWidget :=
  if button event =? Qt_LeftButton then
    {| image := image self;
       current_tool := current_tool self;
       pen_color := pen_color self;
       highlight_color := highlight_color self;
       eraser_color := eraser_color self;
       pen_width := pen_width self;
       highlighter_width := highlighter_width self;
       eraser_width := eraser_width self;
       drawing := true;
       last_point := pos event |}
  else self.

Definition mouseReleaseEvent (self : CanvasWidget) (event : QMouseEvent)
  : CanvasWidget :=
  if button event =? Qt_LeftButton then
    {| image := image self;
       current_tool := current_tool self;
       pen_color := pen_color self;
       highlight_color := highlight_color self;
       eraser_color := eraser_color self;
       pen_width := pen_width self;
       highlighter_width := highlighter_width self;
       eraser_width := eraser_width self;
       drawing := false;
       last_point := last_point self |}
  else self.

Definition clearCanvas (self : CanvasWidget) : CanvasWidget :=
  {| image := QImage_fill Qt_white (image self);
     current_tool := current_tool self;
     pen_color := pen_color self;
     highlight_color := highlight_color self;
     eraser_color := eraser_color self;
     pen_width := pen_width self;
     highlighter_width := highlighter_width self;
     eraser_width := eraser_width self;
     drawing := drawing self;
     last_point := last_point self |}.

(** The pen that [mouseMoveEvent] builds for the current tool: the
    [if/elif/else] of the method. *)
Definition stroke_pen (self : CanvasWidget) : QPen :=
  if String.eqb (current_tool self) "pen" then
    mkQPen (pen_color self) (pen_width self) SolidLine RoundCap RoundJoin
  else if String.eqb (current_tool self) "highlighter" then
    mkQPen (highlight_color self) (highlighter_width self)
      SolidLine RoundCap RoundJoin
  else
    mkQPen (eraser_color self) (eraser_width self)
      SolidLine RoundCap RoundJoin.

Section Painter.

(** The paint engine of Qt: what a line drawn with a pen between two
    points does to the pixel at column [x], row [y].  The painter writes
    into the image it was opened on and composes each pixel with the
    pen's colour where the line covers it. *)
Variable rasterLine : QPen -> QPoint -> QPoint -> Z -> Z -> QRgb -> QRgb.

(** Whether Qt gives an image of this size its buffer. *)
Variable QImage_allocates : Z -> Z -> bool.

(** [QPainter(image); setPen(pen); drawLine(p1, p2); end()]. *)
Definition drawLine (img : QImage) (pen : QPen) (p1 p2 : QPoint) : QImage :=
  mkQImage (img_width img) (img_height img)
    (mapi_from
       (fun i old =>
          rasterLine pen p1 p2
            (Z.of_nat (i mod img_width img))
            (Z.of_nat (i / img_width img)) old)
       0%nat (img_pixels img)).

Definition mouseMoveEvent (self : CanvasWidget) (event : QMouseEvent)
  : CanvasWidget :=
  if negb (Z.land (buttons event) Qt_LeftButton =? 0) && drawing self then
    {| image := drawLine (image self) (stroke_pen self)
                  (last_point self) (pos event);
       current_tool := current_tool self;
       pen_color := pen_color self;
       highlight_color := highlight_color self;
       eraser_color := eraser_color self;
       pen_width := pen_width self;
       highlighter_width := highlighter_width self;
       eraser_width := eraser_width self;
       drawing := drawing self;
       last_point := pos event |}
  else self.

(** What can happen to the surface: the toolbar actions and the pointer
    events.  [paintEvent] and [saveCanvasAsImage] read the image and leave
    the widget as it is. *)
Inductive CanvasOp : Type :=
| OpSetTool (tool_name : string)
| OpSetPenColor (color : QColor)
| OpMousePress (event : QMouseEvent)
| OpMouseMove (event : QMouseEvent)
| OpMouseRelease (event : QMouseEvent)
| OpClearCanvas.

Definition canvas_step (self : CanvasWidget) (op : CanvasOp) : CanvasWidget :=
  match op with
  | OpSetTool t => setTool self t
  | OpSetPenColor c => setPenColor self c
  | OpMousePress e => mousePressEvent self e
  | OpMouseMove e => mouseMoveEvent self e
  | OpMouseRelease e => mouseReleaseEvent self e
  | OpClearCanvas => clearCanvas self
  end.

Definition canvas_run (self : CanvasWidget) (ops : list CanvasOp)
  : CanvasWidget :=
  fold_left canvas_step ops self.

(** The states of a surface built with the given dimensions. *)
Inductive reachable (width height : Z) : CanvasWidget -> Prop :=
| reach_init :
    reachable width height
      (CanvasWidget_init QImage_allocates width height)
| reach_step : forall self op,
    reachable width height self ->
    reachable width height (canvas_step self op).

End Painter.

(** ** Python strings

    The notes text is a Python [str]; a character is modelled by its code
    point, below 256. *)

(** The one-character strings ['\n'] and ['=']. *)
Definition NL : string := String "010"%char EmptyString.
Definition EQ : string := String "="%char EmptyString.

(** [str.isspace] on one character: the whitespace code points below 256
    (tab to carriage return, the four separators 0x1c-0x1f, space, NEL and
    the no-break space). *)
Definition isspace (c : ascii) : bool :=
  let n := nat_of_ascii c in
  (((9 <=? n) && (n <=? 13)) || ((28 <=? n) && (n <=? 32))
   || (n =? 133) || (n =? 160))%nat.

(** [s.split(sep)] for a separator of one character; never the empty list. *)
Fixpoint split (sep : ascii) (s : string) : list string :=
  match s with
  | EmptyString => [EmptyString]
  | String c s' =>
      if Ascii.eqb c sep then EmptyString :: split sep s'
      else match split sep s' with
           | [] => [String c EmptyString]
           | l :: ls => String c l :: ls
           end
  end.

(** [sep.join(l)]. *)
Fixpoint join (sep : string) (l : list string) : string :=
  match l with
  | [] => EmptyString
  | x :: t =>
      match t with
      | [] => x
      | _ :: _ => x ++ sep ++ join sep t
      end
  end%string.

(** [s.endswith(suffix)]. *)
Fixpoint endswith (s suffix : string) : bool :=
  String.eqb s suffix
  || match s with
     | EmptyString => false
     | String _ s' => endswith s' suffix
     end.

(** [s[:-1]]: all but the last character; the empty string stays empty. *)
Fixpoint drop_last (s : string) : string :=
  match s with
  | EmptyString => EmptyString
  | String c s' =>
      match s' with
      | EmptyString => EmptyString
      | String _ _ => String c (drop_last s')
      end
  end.

(** [s.lstrip()], [s.rstrip()], [s.strip()]. *)
Fixpoint lstrip (s : string) : string :=
  match s with
  | EmptyString => EmptyString
  | String c s' => if isspace c then lstrip s' else s
  end.

Fixpoint rstrip (s : string) : string :=
  match s with
  | EmptyString => EmptyString
  | String c s' =>
      match rstrip s' with
      | EmptyString => if isspace c then EmptyString else String c EmptyString
      | String _ _ as r => String c r
      end
  end.

Definition strip (s : string) : string := rstrip (lstrip s).

(** Truth value of a list and of a string: empty is false. *)
Definition list_truthy {A : Type} (l : list A) : bool :=
  match l with [] => false | _ :: _ => true end.

Definition str_truthy (s : string) : bool :=
  match s with EmptyString => false | String _ _ => true end.

(** [l[-1]] on a list the caller has checked to be non-empty, and the
    assignment [l[-1] = x]. *)
Definition list_last (l : list string) : string := last l EmptyString.

Definition list_set_last (l : list string) (x : string) : list string :=
  removelast l ++ [x].

(** ** Exceptions

    The outcome of a call into a library.  [Raises] is an exception of
    class [Exception], the kind an [except Exception] clause catches.
    [Escapes] is an exception outside that class ([SystemExit],
    [KeyboardInterrupt], [GeneratorExit]), which such a clause lets
    through.  [Diverges] is a call that does not come back. *)
Definition Exception : Type := string.
Definition BaseException : Type := string.

Inductive Try (A : Type) : Type :=
| Returns (a : A)
| Raises (e : Exception)
| Escapes (e : BaseException)
| Diverges.

Arguments Returns {A} a.
Arguments Raises {A} e.
Arguments Escapes {A} e.
Arguments Diverges {A}.

(** ** The notes editor *)

(** What the editor was asked to do, in order; kept beside the state so that
    statements can speak about the whole run of a handler.  [EvSetPlainText]
    records whether [textChanged] was emitted. *)
Inductive EditorEvent : Type :=
| EvBlockSignals (block : bool)
| EvSetPlainText (text : string) (emitted : bool)
| EvMoveCursor.

Record QPlainTextEdit : Type := mkQPlainTextEdit
  { plainText : string;
    cursorPosition : nat;
    signalsBlocked : bool;
    history : list EditorEvent }.

Definition blockSignals (ed : QPlainTextEdit) (block : bool) : QPlainTextEdit :=
  {| plainText := plainText ed;
     cursorPosition := cursorPosition ed;
     signalsBlocked := block;
     history := history ed ++ [EvBlockSignals block] |}.

Definition toPlainText (ed : QPlainTextEdit) : string := plainText ed.

(** How a method of the window ends, and the editor as it is then: the
    method returns, an exception that nothing caught leaves it, or it is
    stuck in a call that does not come back. *)
Inductive Outcome : Type :=
| Returned (ed : QPlainTextEdit)
| Propagated (e : BaseException) (ed : QPlainTextEdit)
| Stuck (ed : QPlainTextEdit).

(** [setPlainText(text)]: the document is replaced, the cursor goes to its
    start, and [textChanged] is emitted unless signals are blocked; the
    emission runs the connected slot before the call returns. *)
Definition setPlainText
    (slot : QPlainTextEdit -> option Outcome)
    (ed : QPlainTextEdit) (text : string) : option Outcome :=
  let emitted := negb (signalsBlocked ed) in
  let ed' :=
    {| plainText := text;
       cursorPosition := 0%nat;
       signalsBlocked := signalsBlocked ed;
       history := history ed ++ [EvSetPlainText text emitted] |} in
  if emitted then slot ed' else Some (Returned ed').

(** [moveCursor(QTextCursor.End)]. *)
Definition moveCursor_End (ed : QPlainTextEdit) : QPlainTextEdit :=
  {| plainText := plainText ed;
     cursorPosition := String.length (plainText ed);
     signalsBlocked := signalsBlocked ed;
     history := history ed ++ [EvMoveCursor] |}.

Section MathInNotes.

(** [sympy]: the type of its expressions, [sympify], and the conversion of
    a result to text that the f-string performs. *)
Variable Expr : Type.
Variable sympify : string -> Try Expr.
Variable format_result : Expr -> Try string.

(** The evaluated text of an expression: lines 256 and 257 up to the
    formatting of [result]. *)
Definition evaluate (expr : string) : Try string :=
  match sympify expr with
  | Returns result => format_result result
  | Raises e => Raises e
  | Escapes e => Escapes e
  | Diverges => Diverges
  end.

(** [MainWindow.autoEvaluateTypedMath], connected to the editor's
    [textChanged] (line 138).  The handler is its own slot, so a
    notification delivered while it runs would run it again: [fuel]
    bounds the depth of such nesting, and [None] means the bound was
    hit.  The [except Exception] clause catches [Raises] and nothing else;
    the last line, [blockSignals(False)], is reached only when the lines
    before it return. *)
Fixpoint autoEvaluateTypedMath (fuel : nat) (notes_editor : QPlainTextEdit)
  : option Outcome :=
  match fuel with
  | O => None
  | S fuel' =>
      let ed := blockSignals notes_editor true in
      let text := toPlainText ed in
      let lines := split "010"%char text in
      let body :=
        if list_truthy lines then
          let last_line := list_last lines in
          if endswith last_line EQ then
            let expr := strip (drop_last last_line) in
            if str_truthy expr then
              match evaluate expr with
              | Returns result =>
                  let lines := list_set_last lines (expr ++ EQ ++ result) in
                  let updated_text := join NL lines in
                  match setPlainText (autoEvaluateTypedMath fuel')
                          ed updated_text with
                  | Some (Returned ed) => Some (Returned (moveCursor_End ed))
                  | other => other
                  end
              | Raises _ => Some (Returned ed)
              | Escapes e => Some (Propagated e ed)
              | Diverges => Some (Stuck ed)
              end
            else Some (Returned ed)
          else Some (Returned ed)
        else Some (Returned ed) in
      match body with
      | Some (Returned ed) => Some (Returned (blockSignals ed false))
      | other => other
      end
  end%string.

End MathInNotes.

(** ** A small evaluator and a small rasteriser, for the examples *)

(** Stands in for [sympify] on a handful of inputs: integers as results. *)
Definition demo_sympify (expr : string) : Try Z :=
  if String.eqb expr "2+2" then Returns 4
  else if String.eqb expr "sin(0)" then Returns 0
  else Raises "SympifyError".


Definition demo_format (z : Z) : Try string :=
  if z =? 4 then Returns "4"%string
  else if z =? 0 then Returns "0"%string
  else Raises "ValueError".

(** A toolkit that allocates images of up to four million pixels. *)
Definition demo_allocates (width height : Z) : bool :=
  width * height <=? 4000000.

(** Paints the pen's colour on the row of the second end point. *)
Definition demo_rasterLine (pen : QPen) (p1 p2 : QPoint) (x y : Z) (old : QRgb)
  : QRgb :=
  if y =? py p2 then QColor_rgba (pen_qcolor pen) else old.

Definition mkNotes (text : string) : QPlainTextEdit :=
  mkQPlainTextEdit text (String.length text) false [].

(** ** Predicates used by the statements *)

(** The highlighter is the pen colour at alpha 128. *)
Definition highlighter_tracks_pen (self : CanvasWidget) : Prop :=
  highlight_color self
  = QColor4 (red (pen_color self)) (green (pen_color self))
      (blue (pen_color self)) 128.

(** The presets as the constructor leaves them: black pen and yellow
    highlighter. *)
Definition factory_colors (self : CanvasWidget) : Prop :=
  pen_color self = QColor3 0 0 0
  /\ highlight_color self = QColor4 255 255 0 128.

(** What no operation of the surface touches. *)
Definition canvas_fixed (QImage_allocates : Z -> Z -> bool)
    (width height : Z) (self : CanvasWidget) : Prop :=
  eraser_color self = Qt_white
  /\ pen_width self = 3
  /\ highlighter_width self = 20
  /\ eraser_width self = 20
  /\ img_width (image self)
     = img_width (QImage_new QImage_allocates width height)
  /\ img_height (image self)
     = img_height (QImage_new QImage_allocates width height)
  /\ List.length (img_pixels (image self))
     = List.length (img_pixels (QImage_new QImage_allocates width height)).




(** The character does not occur in the string. *)
Fixpoint lacks (c : ascii) (s : string) : Prop :=
  match s with
  | EmptyString => True
  | String a s' => Ascii.eqb a c = false /\ lacks c s'
  end.

(** A surface after a colour was picked, a stroke drawn and the canvas
    cleared, used to exercise the statements. *)
Definition demo_canvas : CanvasWidget :=
  canvas_step demo_rasterLine
    (canvas_step demo_rasterLine
       (canvas_step demo_rasterLine
          (canvas_step demo_rasterLine (CanvasWidget_init demo_allocates 2 2)
             (OpSetPenColor (QColor3 10 20 30)))
          (OpMousePress (mkQMouseEvent 1 1 (mkQPoint 0 0))))
       (OpMouseMove (mkQMouseEvent 0 1 (mkQPoint 1 1))))
    (OpSetTool "highlighter").

(** The editor the handler returns when it rewrites the last line. *)
Definition rewritten (ed : QPlainTextEdit) (updated_text : string)
  : QPlainTextEdit :=
  {| plainText := updated_text;
     cursorPosition := String.length updated_text;
     signalsBlocked := false;
     history := (history ed
                 ++ [EvBlockSignals true; EvSetPlainText updated_text false;
                     EvMoveCursor; EvBlockSignals false])%list |}.

(** The editor the handler returns when it does nothing. *)
Definition untouched (ed : QPlainTextEdit) : QPlainTextEdit :=
  {| plainText := plainText ed;
     cursorPosition := cursorPosition ed;
     signalsBlocked := false;
     history := (history ed
                 ++ [EvBlockSignals true; EvBlockSignals false])%list |}.

(** ** The rest of the window *)

(** [MainWindow.pickColor]: the dialog's answer is applied when it is valid.
    [color_isValid] is [color.isValid()], false when the dialog was
    cancelled. *)
Definition pickColor (canvas : CanvasWidget) (color : QColor)
    (color_isValid : bool) : CanvasWidget :=
  if color_isValid then setPenColor canvas color else canvas.

Section WidgetGrab.

(** [widget.render(painter)]: what the widget paints at column [x], row [y]
    over the pixel that is there. *)
Variable renderWidget : Z -> Z -> QRgb -> QRgb.

(** Whether Qt gives an image of this size its buffer. *)
Variable QImage_allocates : Z -> Z -> bool.

(** [MainWindow.grabWidgetAsImage(widget, bgColor)], from the widget's
    [width()] and [height()]. *)
Definition grabWidgetAsImage (widget_width widget_height : Z)
    (bgColor : QColor) : QImage :=
  let w := widget_width in
  let h := widget_height in
  let w := if w <? 2 then 400 else w in
  let h := if h <? 2 then 300 else h in
  let image := QImage_fill bgColor (QImage_new QImage_allocates w h) in
  mkQImage (img_width image) (img_height image)
    (mapi_from
       (fun i old =>
          renderWidget
            (Z.of_nat (i mod img_width image))
            (Z.of_nat (i / img_width image)) old)
       0%nat (img_pixels image)).

End WidgetGrab.

(** ** More predicates for the statements *)

(** The operation is a press of the left button. *)
Definition is_left_press (op : CanvasOp) : bool :=
  match op with
  | OpMousePress e => button e =? Qt_LeftButton
  | _ => false
  end.

(** The image after the segments from [from] through the points, each
    drawn with the same pen. *)
Fixpoint polyline
    (rasterLine : QPen -> QPoint -> QPoint -> Z -> Z -> QRgb -> QRgb)
    (img : QImage) (pen : QPen) (from : QPoint) (points : list QPoint)
  : QImage :=
  match points with
  | [] => img
  | p :: rest =>
      polyline rasterLine (drawLine rasterLine img pen from p) pen p rest
  end.

(** Three moves with the left button held, for the examples. *)
Definition demo_moves : list QMouseEvent :=
  [mkQMouseEvent 0 1 (mkQPoint 1 0);
   mkQMouseEvent 0 1 (mkQPoint 1 1);
   mkQMouseEvent 0 3 (mkQPoint 0 1)].

(** Paints every pixel of the first row black. *)
Definition demo_renderWidget (x y : Z) (old : QRgb) : QRgb :=
  if y =? 0 then qRgba 0 0 0 255 else old.

(** * Properties of the drawing surface *)

Lemma mapi_from_length {A B : Type} (f : nat -> A -> B) (l : list A) :
  forall i, List.length (mapi_from f i l) = List.length l.
Proof.
  induction l as [|x t IH]; intro i; simpl.
  - reflexivity.
  - now rewrite IH.
Qed.

Lemma white_pixel : QColor_rgba Qt_white = 4294967295.
Proof. reflexivity. Qed.

Lemma QImage_fill_twice (c : QColor) (img : QImage) :
  QImage_fill c (QImage_fill c img) = QImage_fill c img.
Proof.
  unfold QImage_fill; simpl. now rewrite repeat_length.
Qed.

Lemma QImage_fill_same_shape (c : QColor) (a b : QImage) :
  img_width a = img_width b ->
  img_height a = img_height b ->
  List.length (img_pixels a) = List.length (img_pixels b) ->
  QImage_fill c a = QImage_fill c b.
Proof.
  intros Hw Hh Hl. unfold QImage_fill. now rewrite Hw, Hh, Hl.
Qed.

Section PainterFacts.

Variable rasterLine : QPen -> QPoint -> QPoint -> Z -> Z -> QRgb -> QRgb.
Variable QImage_allocates : Z -> Z -> bool.

Lemma drawLine_shape (img : QImage) (pen : QPen) (p1 p2 : QPoint) :
  img_width (drawLine rasterLine img pen p1 p2) = img_width img
  /\ img_height (drawLine rasterLine img pen p1 p2) = img_height img
  /\ List.length (img_pixels (drawLine rasterLine img pen p1 p2))
     = List.length (img_pixels img).
Proof.
  unfold drawLine; simpl. repeat split. apply mapi_from_length.
Qed.

Lemma canvas_fixed_init (width height : Z) :
  canvas_fixed QImage_allocates width height
    (CanvasWidget_init QImage_allocates width height).
Proof.
  unfold canvas_fixed, CanvasWidget_init, QImage_fill; simpl.
  rewrite repeat_length. repeat split.
Qed.

Lemma canvas_fixed_step (width height : Z) (self : CanvasWidget)
    (op : CanvasOp) :
  canvas_fixed QImage_allocates width height self ->
  canvas_fixed QImage_allocates width height (canvas_step rasterLine self op).
Proof.
  intros (He & Hp & Hh & Hw & Hiw & Hih & Hil).
  destruct op as [t|c|e|e|e|]; simpl.
  - repeat split; assumption.
  - repeat split; assumption.
  - unfold mousePressEvent.
    destruct (button e =? Qt_LeftButton); repeat split; assumption.
  - unfold mouseMoveEvent.
    destruct (negb (Z.land (buttons e) Qt_LeftButton =? 0) && drawing self).
    + destruct (drawLine_shape (image self) (stroke_pen self)
                  (last_point self) (pos e)) as (Dw & Dh & Dl).
      unfold canvas_fixed; cbn [image eraser_color pen_width
                                  highlighter_width eraser_width].
      rewrite Dw, Dh, Dl. repeat split; assumption.
    + repeat split; assumption.
  - unfold mouseReleaseEvent.
    destruct (button e =? Qt_LeftButton); repeat split; assumption.
  - unfold canvas_fixed, clearCanvas, QImage_fill; simpl.
    rewrite repeat_length. repeat split; assumption.
Qed.

Lemma reachable_fixed (width height : Z) (self : CanvasWidget) :
  reachable rasterLine QImage_allocates width height self ->
  canvas_fixed QImage_allocates width height self.
Proof.
  induction 1 as [|self op _ IH].
  - apply canvas_fixed_init.
  - now apply canvas_fixed_step.
Qed.

Lemma reachable_run (width height : Z) (ops : list CanvasOp) :
  forall self,
    reachable rasterLine QImage_allocates width height self ->
    reachable rasterLine QImage_allocates width height
      (canvas_run rasterLine self ops).
Proof.
  induction ops as [|op ops IH]; intros self Hr; simpl.
  - exact Hr.
  - apply IH. now apply reach_step.
Qed.

(** A step keeps the highlighter on the pen colour once it is there. *)
Lemma step_tracks (self : CanvasWidget) (op : CanvasOp) :
  highlighter_tracks_pen self ->
  highlighter_tracks_pen (canvas_step rasterLine self op).
Proof.
  intro H. destruct op as [t|c|e|e|e|]; simpl.
  - exact H.
  - reflexivity.
  - unfold mousePressEvent.
    destruct (button e =? Qt_LeftButton); exact H.
  - unfold mouseMoveEvent.
    destruct (negb (Z.land (buttons e) Qt_LeftButton =? 0)
              && drawing self); exact H.
  - unfold mouseReleaseEvent.
    destruct (button e =? Qt_LeftButton); exact H.
  - exact H.
Qed.

(** Only [setPenColor] writes the two colours. *)
Lemma step_keeps_colors (self : CanvasWidget) (op : CanvasOp) :
  (forall c, op <> OpSetPenColor c) ->
  pen_color (canvas_step rasterLine self op) = pen_color self
  /\ highlight_color (canvas_step rasterLine self op) = highlight_color self.
Proof.
  intro H. destruct op as [t|c|e|e|e|]; simpl.
  - split; reflexivity.
  - now contradiction (H c).
  - unfold mousePressEvent.
    destruct (button e =? Qt_LeftButton); split; reflexivity.
  - unfold mouseMoveEvent.
    destruct (negb (Z.land (buttons e) Qt_LeftButton =? 0)
              && drawing self); split; reflexivity.
  - unfold mouseReleaseEvent.
    destruct (button e =? Qt_LeftButton); split; reflexivity.
  - split; reflexivity.
Qed.

Lemma run_colors (ops : list CanvasOp) :
  forall self,
    (highlighter_tracks_pen self ->
     highlighter_tracks_pen (canvas_run rasterLine self ops))
    /\ ((exists c, In (OpSetPenColor c) ops) ->
        highlighter_tracks_pen (canvas_run rasterLine self ops))
    /\ ((forall c, ~ In (OpSetPenColor c) ops) ->
        pen_color (canvas_run rasterLine self ops) = pen_color self
        /\ highlight_color (canvas_run rasterLine self ops)
           = highlight_color self).
Proof.
  induction ops as [|op ops IH]; intro self; simpl.
  - split; [tauto|]. split.
    + intros [c []].
    + intros _. split; reflexivity.
  - destruct (IH (canvas_step rasterLine self op)) as (Ht & Hs & Hn).
    split; [|split].
    + intro H. now apply Ht, step_tracks.
    + intros [c [Hc | Hc]].
      * subst op. apply Ht. reflexivity.
      * apply Hs. now exists c.
    + intro H.
      destruct (step_keeps_colors self op) as (Hp & Hh).
      { intros c Hc. apply (H c). now left. }
      destruct Hn as (Hp' & Hh').
      { intros c Hc. apply (H c). now right. }
      split; congruence.
Qed.

End PainterFacts.

(** ** Colours *)

(** C3, as stated, fails on the freshly constructed surface: the pen is
    black while the highlighter is yellow at alpha 128, not black at
    alpha 128. *)
Lemma highlighter_initially_not_pen_colored :
  reachable demo_rasterLine demo_allocates 2000 2000
    (CanvasWidget_default demo_allocates)
  /\ ~ highlighter_tracks_pen (CanvasWidget_default demo_allocates).
Proof.
  split.
  - apply reach_init.
  - unfold highlighter_tracks_pen, CanvasWidget_default, CanvasWidget_init.
    cbn [highlight_color pen_color red green blue QColor3 QColor4].
    discriminate.
Qed.

(** C3, amended: after any sequence of operations on a freshly constructed
    surface the eraser colour is the white of the canvas background and the
    highlighter has alpha 128; if the sequence has a [setPenColor], the
    highlighter has the red, green and blue of the pen colour; if it has
    none, the pen is black and the highlighter yellow, as the constructor
    sets them. *)
Theorem reachable_tool_colors :
  forall rasterLine QImage_allocates width height ops,
    eraser_color
      (canvas_run rasterLine
         (CanvasWidget_init QImage_allocates width height) ops)
    = Qt_white
    /\ alpha (highlight_color
                (canvas_run rasterLine
                   (CanvasWidget_init QImage_allocates width height) ops))
       = 128
    /\ ((exists c, In (OpSetPenColor c) ops) ->
        highlighter_tracks_pen
          (canvas_run rasterLine
             (CanvasWidget_init QImage_allocates width height) ops))
    /\ ((forall c, ~ In (OpSetPenColor c) ops) ->
        factory_colors
          (canvas_run rasterLine
             (CanvasWidget_init QImage_allocates width height) ops)).
Proof.
  intros rl al w h ops.
  set (init := CanvasWidget_init al w h).
  assert (Hr : reachable rl al w h (canvas_run rl init ops))
    by apply reachable_run, reach_init.
  pose proof (reachable_fixed rl al w h _ Hr) as (He & _).
  destruct (run_colors rl ops init) as (_ & Hset & Hnone).
  assert (Hcases : (exists c, In (OpSetPenColor c) ops)
                   \/ forall c, ~ In (OpSetPenColor c) ops).
  { clear. induction ops as [|op ops [[c Hc] | IH]].
    - right. intros c [].
    - left. exists c. now right.
    - destruct op as [t|c|e|e|e|];
        try (right; intros c' [Hc | Hc]; [discriminate | exact (IH c' Hc)]).
      left. exists c. now left. }
  split; [exact He|]. split; [|split].
  - destruct Hcases as [H | H].
    + rewrite (Hset H). reflexivity.
    + destruct (Hnone H) as (_ & Hh). rewrite Hh. reflexivity.
  - exact Hset.
  - intro H. destruct (Hnone H) as (Hp & Hh). split; assumption.
Qed.

(** C4: after [setPenColor(c)] the pen colour is exactly [c] and the
    highlighter has the red, green and blue of [c] and alpha 128. *)
Theorem setPenColor_colors :
  forall self c,
    pen_color (setPenColor self c) = c
    /\ red (highlight_color (setPenColor self c)) = red c
    /\ green (highlight_color (setPenColor self c)) = green c
    /\ blue (highlight_color (setPenColor self c)) = blue c
    /\ alpha (highlight_color (setPenColor self c)) = 128.
Proof.
  intros self c. unfold setPenColor; simpl. repeat split.
Qed.

(** C6: [setPenColor(c)] leaves the eraser colour (the white of the
    background), the three widths, the current tool and the pixel buffer as
    they were. *)
Theorem setPenColor_frame :
  forall rasterLine QImage_allocates width height self c,
    reachable rasterLine QImage_allocates width height self ->
    eraser_color (setPenColor self c) = eraser_color self
    /\ eraser_color (setPenColor self c) = Qt_white
    /\ pen_width (setPenColor self c) = pen_width self
    /\ highlighter_width (setPenColor self c) = highlighter_width self
    /\ eraser_width (setPenColor self c) = eraser_width self
    /\ current_tool (setPenColor self c) = current_tool self
    /\ image (setPenColor self c) = image self.
Proof.
  intros rl al w h self c Hr.
  pose proof (reachable_fixed rl al w h self Hr) as (He & _).
  unfold setPenColor; simpl. repeat split. exact He.
Qed.

Lemma setPenColor_frame_witness :
  reachable demo_rasterLine demo_allocates 2 2 demo_canvas
  /\ eraser_color (setPenColor demo_canvas (QColor3 200 0 0)) = Qt_white
  /\ current_tool (setPenColor demo_canvas (QColor3 200 0 0)) = "highlighter"
  /\ image (setPenColor demo_canvas (QColor3 200 0 0)) = image demo_canvas.
Proof.
  assert (Hr : reachable demo_rasterLine demo_allocates 2 2 demo_canvas)
    by (unfold demo_canvas; repeat apply reach_step; apply reach_init).
  split; [exact Hr|].
  destruct (setPenColor_frame demo_rasterLine demo_allocates 2 2 demo_canvas
              (QColor3 200 0 0) Hr) as (_ & He & _ & _ & _ & Ht & Hi).
  split; [exact He|]. split; [exact Ht | exact Hi].
Defined.

(** ** Clearing *)

(** C5: from any reachable state, [clearCanvas] gives the buffer the
    constructor produced: every pixel the white background colour, width
    and height as before. *)
Theorem clearCanvas_restores_initial_image :
  forall rasterLine QImage_allocates width height self,
    reachable rasterLine QImage_allocates width height self ->
    image (clearCanvas self)
    = image (CanvasWidget_init QImage_allocates width height)
    /\ Forall (fun p => p = QColor_rgba Qt_white)
         (img_pixels (image (clearCanvas self)))
    /\ img_width (image (clearCanvas self)) = img_width (image self)
    /\ img_height (image (clearCanvas self)) = img_height (image self)
    /\ List.length (img_pixels (image (clearCanvas self)))
       = List.length (img_pixels (image self)).
Proof.
  intros rl al w h self Hr.
  pose proof (reachable_fixed rl al w h self Hr)
    as (_ & _ & _ & _ & Hw & Hh & Hl).
  unfold clearCanvas, CanvasWidget_init; cbn [image].
  split; [now apply QImage_fill_same_shape|].
  unfold QImage_fill; cbn [img_pixels img_width img_height].
  split.
  - apply Forall_forall. intros p Hp. now apply repeat_spec in Hp.
  - rewrite repeat_length. repeat split.
Qed.

Lemma clearCanvas_restores_initial_image_witness :
  reachable demo_rasterLine demo_allocates 2 2 demo_canvas
  /\ image demo_canvas <> image (CanvasWidget_init demo_allocates 2 2)
  /\ image (clearCanvas demo_canvas)
     = image (CanvasWidget_init demo_allocates 2 2).
Proof.
  assert (Hr : reachable demo_rasterLine demo_allocates 2 2 demo_canvas)
    by (unfold demo_canvas; repeat apply reach_step; apply reach_init).
  split; [exact Hr|]. split.
  - vm_compute. discriminate.
  - exact (proj1 (clearCanvas_restores_initial_image
                    demo_rasterLine demo_allocates 2 2 demo_canvas Hr)).
Defined.

(** ** Strokes *)

Lemma stroke_pen_shape (self : CanvasWidget) :
  pen_style (stroke_pen self) = SolidLine
  /\ pen_cap (stroke_pen self) = RoundCap
  /\ pen_join (stroke_pen self) = RoundJoin.
Proof.
  unfold stroke_pen.
  destruct (String.eqb (current_tool self) "pen");
    [|destruct (String.eqb (current_tool self) "highlighter")];
    repeat split.
Qed.

Lemma left_button_held (event : QMouseEvent) :
  Z.land (buttons event) Qt_LeftButton <> 0 ->
  negb (Z.land (buttons event) Qt_LeftButton =? 0) = true.
Proof.
  intro H. apply negb_true_iff. now apply Z.eqb_neq.
Qed.

(** C8: a pointer move with the left button held during a stroke draws the
    segment from the last recorded point to the event position with the
    active tool's colour and width, round cap and round join, and records
    the event position as the last point. *)
Theorem mouseMoveEvent_draws_segment :
  forall rasterLine self event,
    Z.land (buttons event) Qt_LeftButton <> 0 ->
    drawing self = true ->
    exists pen,
      image (mouseMoveEvent rasterLine self event)
      = drawLine rasterLine (image self) pen (last_point self) (pos event)
      /\ last_point (mouseMoveEvent rasterLine self event) = pos event
      /\ pen_style pen = SolidLine
      /\ pen_cap pen = RoundCap
      /\ pen_join pen = RoundJoin
      /\ (current_tool self = "pen" ->
          pen_qcolor pen = pen_color self /\ pen_qwidth pen = pen_width self)
      /\ (current_tool self = "highlighter" ->
          pen_qcolor pen = highlight_color self
          /\ pen_qwidth pen = highlighter_width self)
      /\ (current_tool self = "eraser" ->
          pen_qcolor pen = eraser_color self
          /\ pen_qwidth pen = eraser_width self).
Proof.
  intros rl self event Hheld Hdrawing.
  exists (stroke_pen self).
  unfold mouseMoveEvent.
  rewrite (left_button_held event Hheld), Hdrawing.
  cbn [andb image last_point].
  destruct (stroke_pen_shape self) as (Hs & Hc & Hj).
  repeat split; try assumption;
    unfold stroke_pen; rewrite H; reflexivity.
Qed.

Lemma mouseMoveEvent_draws_segment_witness :
  Z.land (buttons (mkQMouseEvent 0 1 (mkQPoint 1 0))) Qt_LeftButton <> 0
  /\ drawing (mousePressEvent demo_canvas
                (mkQMouseEvent 1 1 (mkQPoint 0 1))) = true
  /\ exists pen,
      image (mouseMoveEvent demo_rasterLine
               (mousePressEvent demo_canvas (mkQMouseEvent 1 1 (mkQPoint 0 1)))
               (mkQMouseEvent 0 1 (mkQPoint 1 0)))
      = drawLine demo_rasterLine (image demo_canvas) pen
          (mkQPoint 0 1) (mkQPoint 1 0)
      /\ pen_qcolor pen = QColor4 10 20 30 128
      /\ pen_qwidth pen = 20.
Proof.
  assert (Hheld : Z.land (buttons (mkQMouseEvent 0 1 (mkQPoint 1 0)))
                    Qt_LeftButton <> 0) by (vm_compute; discriminate).
  assert (Hdrawing : drawing (mousePressEvent demo_canvas
                                (mkQMouseEvent 1 1 (mkQPoint 0 1))) = true)
    by reflexivity.
  split; [exact Hheld|]. split; [exact Hdrawing|].
  destruct (mouseMoveEvent_draws_segment demo_rasterLine _ _ Hheld Hdrawing)
    as (pen & Himg & _ & _ & _ & _ & _ & Hhl & _).
  exists pen. split; [exact Himg|]. exact (Hhl eq_refl).
Defined.

(** C10: [setTool] stores whatever string it is given; with a stored name
    other than ['pen'] and ['highlighter'], the next stroke is drawn with
    the eraser preset, white and 20 wide. *)
Theorem setTool_other_name_draws_eraser :
  forall rasterLine QImage_allocates width height self tool_name press move,
    reachable rasterLine QImage_allocates width height self ->
    tool_name <> "pen" ->
    tool_name <> "highlighter" ->
    button press = Qt_LeftButton ->
    Z.land (buttons move) Qt_LeftButton <> 0 ->
    current_tool (setTool self tool_name) = tool_name
    /\ image (mouseMoveEvent rasterLine
                (mousePressEvent (setTool self tool_name) press) move)
       = drawLine rasterLine (image self)
           (mkQPen Qt_white 20 SolidLine RoundCap RoundJoin)
           (pos press) (pos move).
Proof.
  intros rl al w h self name press move Hr Hpen Hhl Hpress Hheld.
  pose proof (reachable_fixed rl al w h self Hr)
    as (He & _ & _ & Hw & _).
  split; [reflexivity|].
  unfold mouseMoveEvent, mousePressEvent.
  rewrite Hpress, Z.eqb_refl.
  rewrite (left_button_held move Hheld).
  cbn [andb drawing image last_point].
  unfold stroke_pen. cbn [current_tool setTool eraser_color eraser_width].
  apply String.eqb_neq in Hpen, Hhl. rewrite Hpen, Hhl, He, Hw.
  reflexivity.
Qed.

Lemma setTool_other_name_draws_eraser_witness :
  reachable demo_rasterLine demo_allocates 2 2 demo_canvas
  /\ "highlihgter" <> "pen"
  /\ "highlihgter" <> "highlighter"
  /\ current_tool (setTool demo_canvas "highlihgter") = "highlihgter"
  /\ image (mouseMoveEvent demo_rasterLine
              (mousePressEvent (setTool demo_canvas "highlihgter")
                 (mkQMouseEvent 1 1 (mkQPoint 0 0)))
              (mkQMouseEvent 0 1 (mkQPoint 1 1)))
     = drawLine demo_rasterLine (image demo_canvas)
         (mkQPen Qt_white 20 SolidLine RoundCap RoundJoin)
         (mkQPoint 0 0) (mkQPoint 1 1).
Proof.
  assert (Hr : reachable demo_rasterLine demo_allocates 2 2 demo_canvas)
    by (unfold demo_canvas; repeat apply reach_step; apply reach_init).
  assert (H1 : "highlihgter" <> "pen") by discriminate.
  assert (H2 : "highlihgter" <> "highlighter") by discriminate.
  split; [exact Hr|]. split; [exact H1|]. split; [exact H2|].
  apply (setTool_other_name_draws_eraser demo_rasterLine demo_allocates 2 2
           demo_canvas
           "highlihgter" (mkQMouseEvent 1 1 (mkQPoint 0 0))
           (mkQMouseEvent 0 1 (mkQPoint 1 1)) Hr H1 H2).
  - reflexivity.
  - vm_compute; discriminate.
Defined.

(** * Properties of the typed-math handler *)

(** ** Strings *)

Lemma endswith_EQ_iff (s : string) :
  endswith s EQ = true <-> exists r, s = (r ++ EQ)%string.
Proof.
  split.
  - induction s as [|c s IH]; cbn [endswith].
    + discriminate.
    + intro H. apply orb_true_iff in H. destruct H as [H | H].
      * apply String.eqb_eq in H. exists EmptyString. exact H.
      * destruct (IH H) as [r Hr]. exists (String c r). simpl. now rewrite Hr.
  - intros [r Hr]. subst s. induction r as [|c r IH].
    + reflexivity.
    + change (String c r ++ EQ)%string with (String c (r ++ EQ)).
      cbn [endswith]. rewrite IH. apply orb_true_r.
Qed.

Lemma drop_last_app_EQ (r : string) : drop_last (r ++ EQ) = r.
Proof.
  induction r as [|c r IH].
  - reflexivity.
  - simpl. destruct (r ++ EQ)%string eqn:E.
    + destruct r; discriminate.
    + now rewrite IH.
Qed.

Lemma split_nonempty (sep : ascii) (s : string) : split sep s <> [].
Proof.
  destruct s as [|c s]; simpl.
  - discriminate.
  - destruct (Ascii.eqb c sep); [discriminate|].
    destruct (split sep s); discriminate.
Qed.

Lemma split_lacks (sep : ascii) (s : string) :
  Forall (lacks sep) (split sep s).
Proof.
  induction s as [|c s IH]; simpl.
  - repeat constructor.
  - destruct (Ascii.eqb c sep) eqn:E.
    + constructor; [exact I | exact IH].
    + destruct (split sep s) as [|l ls].
      * repeat constructor. exact E.
      * inversion IH; subst. constructor; [|assumption].
        simpl. now split.
Qed.

Lemma split_app_sep (sep : ascii) (a rest : string) :
  lacks sep a ->
  split sep (a ++ String sep rest) = a :: split sep rest.
Proof.
  induction a as [|c a IH]; simpl.
  - intros _. now rewrite Ascii.eqb_refl.
  - intros [Hc Ha]. rewrite Hc, (IH Ha). reflexivity.
Qed.

Lemma join_cons (sep a : string) (t : list string) :
  t <> [] -> join sep (a :: t) = (a ++ sep ++ join sep t)%string.
Proof.
  destruct t; [congruence | reflexivity].
Qed.

Lemma split_join_snoc (sep : ascii) (l : list string) (x : string) :
  Forall (lacks sep) l ->
  split sep (join (String sep EmptyString) (l ++ [x])%list)
  = (l ++ split sep x)%list.
Proof.
  induction l as [|a l IH]; intro Hl.
  - reflexivity.
  - inversion Hl as [|a' l' Ha Hl']; subst.
    change ((a :: l) ++ [x])%list with (a :: (l ++ [x])%list).
    rewrite join_cons by (destruct l; discriminate).
    simpl append at 2.
    rewrite (split_app_sep sep a _ Ha), (IH Hl').
    reflexivity.
Qed.

Lemma Forall_removelast {A : Type} (P : A -> Prop) (l : list A) :
  Forall P l -> Forall P (removelast l).
Proof.
  induction 1 as [|a l Ha Hl IH]; simpl.
  - constructor.
  - destruct l; [constructor|]. constructor; assumption.
Qed.

Lemma nth_error_removelast {A : Type} (l : list A) (i : nat) :
  (i < List.length l - 1)%nat ->
  nth_error (removelast l) i = nth_error l i.
Proof.
  revert i. induction l as [|a l IH]; intros i Hi.
  - simpl in Hi. lia.
  - destruct l as [|b l].
    + simpl in Hi. lia.
    + destruct i as [|i].
      * reflexivity.
      * change (nth_error (removelast (b :: l)) i = nth_error (b :: l) i).
        apply IH. simpl in *. lia.
Qed.

Lemma removelast_length {A : Type} (l : list A) :
  List.length (removelast l) = (List.length l - 1)%nat.
Proof.
  induction l as [|a l IH].
  - reflexivity.
  - destruct l as [|b l]; [reflexivity|].
    change (S (List.length (removelast (b :: l)))
            = (S (List.length (b :: l)) - 1)%nat).
    rewrite IH. simpl. lia.
Qed.

(** ** The handler, one case at a time *)

Section HandlerFacts.

Variable Expr : Type.
Variable sympify : string -> Try Expr.
Variable format_result : Expr -> Try string.

Local Abbreviation handler :=
  (autoEvaluateTypedMath Expr sympify format_result).
Local Abbreviation eval := (evaluate Expr sympify format_result).

Lemma handler_not_ending_with_EQ (fuel : nat) (ed : QPlainTextEdit) :
  endswith (list_last (split "010"%char (plainText ed))) EQ = false ->
  handler (S fuel) ed = Some (Returned (untouched ed)).
Proof.
  intro H. cbn [autoEvaluateTypedMath].
  unfold toPlainText. cbn [blockSignals plainText].
  destruct (split "010"%char (plainText ed)) as [|l ls] eqn:E.
  - now apply split_nonempty in E.
  - cbn [list_truthy]. rewrite H.
    unfold untouched, blockSignals; cbn. now rewrite <- app_assoc.
Qed.



Lemma handler_rewrites (fuel : nat) (ed : QPlainTextEdit)
    (result : string) :
  let lines := split "010"%char (plainText ed) in
  let expr := strip (drop_last (list_last lines)) in
  endswith (list_last lines) EQ = true ->
  expr <> EmptyString ->
  eval expr = Returns result ->
  handler (S fuel) ed
  = Some (Returned
            (rewritten ed
               (join NL (list_set_last lines (expr ++ EQ ++ result))))).
Proof.
  intros lines expr Hend Hexpr Heval. subst lines expr.
  cbn [autoEvaluateTypedMath].
  unfold toPlainText. cbn [blockSignals plainText].
  destruct (split "010"%char (plainText ed)) as [|l ls] eqn:E.
  - now apply split_nonempty in E.
  - cbn [list_truthy]. rewrite Hend.
    destruct (strip (drop_last (list_last (l :: ls)))) as [|c s] eqn:Es.
    + congruence.
    + cbn [str_truthy]. rewrite Heval.
      unfold setPlainText, moveCursor_End, rewritten, blockSignals; cbn.
      now rewrite <- !app_assoc.
Qed.





End HandlerFacts.

(** ** Text before and after a run *)

Lemma str_app_assoc (a b c : string) :
  ((a ++ b) ++ c = a ++ (b ++ c))%string.
Proof.
  induction a as [|x a IH]; simpl.
  - reflexivity.
  - now rewrite IH.
Qed.

Lemma join_split (sep : ascii) (s : string) :
  join (String sep EmptyString) (split sep s) = s.
Proof.
  induction s as [|c s IH].
  - reflexivity.
  - cbn [split]. destruct (Ascii.eqb c sep) eqn:E.
    + apply Ascii.eqb_eq in E. subst c.
      rewrite join_cons by apply split_nonempty.
      now rewrite IH.
    + destruct (split sep s) as [|l ls] eqn:Es.
      * now apply split_nonempty in Es.
      * destruct ls as [|b ls].
        -- simpl in *. now rewrite IH.
        -- rewrite join_cons by discriminate.
           rewrite join_cons in IH by discriminate.
           rewrite <- IH. reflexivity.
Qed.

Lemma join_snoc_factor (sep : string) (l : list string) :
  exists prefix, forall x, join sep (l ++ [x])%list = (prefix ++ x)%string.
Proof.
  induction l as [|a l (prefix & IH)].
  - exists EmptyString. reflexivity.
  - exists (a ++ sep ++ prefix)%string. intro x.
    change ((a :: l) ++ [x])%list with (a :: (l ++ [x])%list).
    rewrite join_cons by (destruct l; discriminate).
    now rewrite IH, !str_app_assoc.
Qed.

(** The text is what comes before its last line, then the last line; the
    same prefix is in front of any replacement of the last line. *)
Lemma text_factor (text : string) :
  exists prefix,
    text = (prefix ++ list_last (split "010"%char text))%string
    /\ forall x,
         join NL (list_set_last (split "010"%char text) x)
         = (prefix ++ x)%string.
Proof.
  destruct (join_snoc_factor NL (removelast (split "010"%char text)))
    as (prefix & Hp).
  exists prefix. split.
  - rewrite <- Hp. unfold list_last.
    rewrite <- app_removelast_last by apply split_nonempty.
    symmetry. apply join_split.
  - intro x. apply Hp.
Qed.

(** C1: when the last line is [E=] and the stripped [E] is non-empty and
    evaluates, the handler replaces the last line by the stripped [E], [=]
    and the evaluated result, and leaves the cursor at the end of the
    text. *)
Theorem autoEvaluate_rewrites_last_line :
  forall Expr sympify format_result fuel notes_editor raw result,
    list_last (split "010"%char (plainText notes_editor))
    = (raw ++ EQ)%string ->
    strip raw <> EmptyString ->
    evaluate Expr sympify format_result (strip raw) = Returns result ->
    exists ed prefix,
      autoEvaluateTypedMath Expr sympify format_result (S fuel) notes_editor
      = Some (Returned ed)
      /\ plainText notes_editor = (prefix ++ raw ++ EQ)%string
      /\ plainText ed = (prefix ++ strip raw ++ EQ ++ result)%string
      /\ plainText ed
         = join NL (list_set_last (split "010"%char (plainText notes_editor))
                      (strip raw ++ EQ ++ result)%string)
      /\ cursorPosition ed = String.length (plainText ed).
Proof.
  intros Expr sympify format_result fuel ed0 raw result Hlast Hexpr Heval.
  destruct (text_factor (plainText ed0)) as (prefix & Htext & Hjoin).
  eexists. exists prefix. split.
  - apply handler_rewrites with (result := result).
    + rewrite Hlast. apply endswith_EQ_iff. now exists raw.
    + now rewrite Hlast, drop_last_app_EQ.
    + now rewrite Hlast, drop_last_app_EQ.
  - rewrite Hlast, drop_last_app_EQ. cbn [rewritten plainText cursorPosition].
    rewrite Hlast in Htext.
    split; [exact Htext|]. split; [apply Hjoin|]. split; reflexivity.
Qed.

Lemma autoEvaluate_rewrites_last_line_witness :
  list_last (split "010"%char (plainText (mkNotes ("note" ++ NL ++ " 2+2 ="))))
  = (" 2+2 " ++ EQ)%string
  /\ strip " 2+2 " <> EmptyString
  /\ evaluate Z demo_sympify demo_format (strip " 2+2 ") = Returns "4"%string
  /\ exists ed,
      autoEvaluateTypedMath Z demo_sympify demo_format 1
        (mkNotes ("note" ++ NL ++ " 2+2 =")) = Some (Returned ed)
      /\ plainText ed = ("note" ++ NL ++ "2+2=4")%string
      /\ cursorPosition ed = 10%nat.
Proof.
  assert (H1 : list_last (split "010"%char
                 (plainText (mkNotes ("note" ++ NL ++ " 2+2 ="))))
               = (" 2+2 " ++ EQ)%string) by reflexivity.
  assert (H2 : strip " 2+2 " <> EmptyString) by (vm_compute; discriminate).
  assert (H3 : evaluate Z demo_sympify demo_format (strip " 2+2 ")
               = Returns "4"%string) by reflexivity.
  split; [exact H1|]. split; [exact H2|]. split; [exact H3|].
  destruct (autoEvaluate_rewrites_last_line Z demo_sympify demo_format 0%nat
              _ _ _ H1 H2 H3) as (ed & prefix & Hrun & _ & _ & Htext & Hcur).
  exists ed. split; [exact Hrun|].
  split; [exact Htext | rewrite Hcur, Htext; reflexivity].
Defined.




(** C7: when the handler rewrites, the lines before the last one are the
    lines that were there; what replaces the last line comes after them. *)
Theorem autoEvaluate_keeps_other_lines :
  forall Expr sympify format_result fuel notes_editor raw result,
    list_last (split "010"%char (plainText notes_editor))
    = (raw ++ EQ)%string ->
    strip raw <> EmptyString ->
    evaluate Expr sympify format_result (strip raw) = Returns result ->
    exists ed,
      autoEvaluateTypedMath Expr sympify format_result (S fuel) notes_editor
      = Some (Returned ed)
      /\ split "010"%char (plainText ed)
         = (removelast (split "010"%char (plainText notes_editor))
            ++ split "010"%char (strip raw ++ EQ ++ result)%string)%list
      /\ forall i,
           (i < List.length (split "010"%char (plainText notes_editor)) - 1
           )%nat ->
           nth_error (split "010"%char (plainText ed)) i
           = nth_error (split "010"%char (plainText notes_editor)) i.
Proof.
  intros Expr sympify format_result fuel ed0 raw result Hlast Hexpr Heval.
  assert (Hsplit :
            split "010"%char
              (join NL (list_set_last (split "010"%char (plainText ed0))
                          (strip raw ++ EQ ++ result)%string))
            = (removelast (split "010"%char (plainText ed0))
               ++ split "010"%char (strip raw ++ EQ ++ result)%string)%list).
  { unfold list_set_last, NL. apply split_join_snoc.
    apply Forall_removelast, split_lacks. }
  eexists. split; [|split].
  - apply handler_rewrites with (result := result).
    + rewrite Hlast. apply endswith_EQ_iff. now exists raw.
    + now rewrite Hlast, drop_last_app_EQ.
    + now rewrite Hlast, drop_last_app_EQ.
  - rewrite Hlast, drop_last_app_EQ. cbn [rewritten plainText].
    exact Hsplit.
  - intros i Hi. rewrite Hlast, drop_last_app_EQ. cbn [rewritten plainText].
    rewrite Hsplit, nth_error_app1 by (rewrite removelast_length; exact Hi).
    now apply nth_error_removelast.
Qed.

Lemma autoEvaluate_keeps_other_lines_witness :
  list_last (split "010"%char
               (plainText (mkNotes ("a" ++ NL ++ "b" ++ NL ++ "sin(0)="))))
  = ("sin(0)" ++ EQ)%string
  /\ strip "sin(0)" <> EmptyString
  /\ evaluate Z demo_sympify demo_format (strip "sin(0)") = Returns "0"%string
  /\ exists ed,
      autoEvaluateTypedMath Z demo_sympify demo_format 1
        (mkNotes ("a" ++ NL ++ "b" ++ NL ++ "sin(0)=")) = Some (Returned ed)
      /\ split "010"%char (plainText ed)
         = ["a"%string; "b"%string; "sin(0)=0"%string].
Proof.
  assert (H1 : list_last (split "010"%char
                 (plainText (mkNotes ("a" ++ NL ++ "b" ++ NL ++ "sin(0)="))))
               = ("sin(0)" ++ EQ)%string) by reflexivity.
  assert (H2 : strip "sin(0)" <> EmptyString) by (vm_compute; discriminate).
  assert (H3 : evaluate Z demo_sympify demo_format (strip "sin(0)")
               = Returns "0"%string) by reflexivity.
  split; [exact H1|]. split; [exact H2|]. split; [exact H3|].
  destruct (autoEvaluate_keeps_other_lines Z demo_sympify demo_format 0%nat
              _ _ _ H1 H2 H3) as (ed & Hrun & Hsplit & _).
  exists ed. split; [exact Hrun | rewrite Hsplit; reflexivity].
Defined.




(** * Further properties of the drawing surface *)

Section StrokeFacts.

Variable rasterLine : QPen -> QPoint -> QPoint -> Z -> Z -> QRgb -> QRgb.

Lemma moves_without_stroke (moves : list QMouseEvent) :
  forall self,
    drawing self = false ->
    canvas_run rasterLine self (map OpMouseMove moves) = self.
Proof.
  induction moves as [|e moves IH]; intros self Hd; simpl.
  - reflexivity.
  - unfold mouseMoveEvent. rewrite Hd, andb_false_r. now apply IH.
Qed.

Lemma stroke_pen_after_move (self : CanvasWidget) (event : QMouseEvent) :
  stroke_pen (mouseMoveEvent rasterLine self event) = stroke_pen self.
Proof.
  unfold mouseMoveEvent.
  destruct (negb (Z.land (buttons event) Qt_LeftButton =? 0)
            && drawing self); reflexivity.
Qed.

Lemma last_cons_default {A : Type} (a d : A) (l : list A) :
  last (a :: l) d = last l a.
Proof.
  revert a d. induction l as [|b l IH]; intros a d.
  - reflexivity.
  - change (last (b :: l) d = last (b :: l) a).
    now rewrite !IH.
Qed.

Lemma moves_in_stroke (moves : list QMouseEvent) :
  forall self,
    drawing self = true ->
    Forall (fun e => Z.land (buttons e) Qt_LeftButton <> 0) moves ->
    image (canvas_run rasterLine self (map OpMouseMove moves))
    = polyline rasterLine (image self) (stroke_pen self) (last_point self)
        (map pos moves)
    /\ last_point (canvas_run rasterLine self (map OpMouseMove moves))
       = last (map pos moves) (last_point self)
    /\ drawing (canvas_run rasterLine self (map OpMouseMove moves)) = true.
Proof.
  induction moves as [|e moves IH]; intros self Hd Hheld.
  - simpl. repeat split. exact Hd.
  - inversion Hheld as [|e' moves' He Hrest]; subst.
    change (canvas_run rasterLine self (map OpMouseMove (e :: moves)))
      with (canvas_run rasterLine (mouseMoveEvent rasterLine self e)
              (map OpMouseMove moves)).
    assert (Hstep : mouseMoveEvent rasterLine self e
                    = {| image := drawLine rasterLine (image self)
                                    (stroke_pen self) (last_point self)
                                    (pos e);
                         current_tool := current_tool self;
                         pen_color := pen_color self;
                         highlight_color := highlight_color self;
                         eraser_color := eraser_color self;
                         pen_width := pen_width self;
                         highlighter_width := highlighter_width self;
                         eraser_width := eraser_width self;
                         drawing := drawing self;
                         last_point := pos e |}).
    { unfold mouseMoveEvent. now rewrite (left_button_held e He), Hd. }
    destruct (IH (mouseMoveEvent rasterLine self e)) as (Hi & Hl & Hd').
    { rewrite Hstep. exact Hd. }
    { exact Hrest. }
    rewrite Hi, Hl, Hd'. rewrite stroke_pen_after_move.
    rewrite Hstep; cbn [image last_point map polyline].
    repeat split. symmetry. apply last_cons_default.
Qed.

End StrokeFacts.

(** X1: the image keeps the size it was constructed with.  When both
    dimensions are positive and Qt allocates the buffer, the image is
    [width] by [height] with that many pixels in every reachable state;
    otherwise it is the null image, and stays so. *)
Theorem reachable_image_size :
  forall rasterLine QImage_allocates width height self,
    reachable rasterLine QImage_allocates width height self ->
    (0 < width /\ 0 < height /\ QImage_allocates width height = true ->
     img_width (image self) = Z.to_nat width
     /\ img_height (image self) = Z.to_nat height
     /\ List.length (img_pixels (image self))
        = (Z.to_nat width * Z.to_nat height)%nat)
    /\ (width <= 0 \/ height <= 0 \/ QImage_allocates width height = false ->
        img_width (image self) = 0%nat
        /\ img_height (image self) = 0%nat
        /\ img_pixels (image self) = []).
Proof.
  intros rl al w h self Hr.
  pose proof (reachable_fixed rl al w h self Hr)
    as (_ & _ & _ & _ & Hw & Hh & Hl).
  unfold QImage_new in Hw, Hh, Hl. split.
  - intros (Hpw & Hph & Hal).
    apply Z.ltb_lt in Hpw, Hph. rewrite Hpw, Hph, Hal in Hw, Hh, Hl.
    cbn [andb img_width img_height img_pixels] in Hw, Hh, Hl.
    rewrite repeat_length in Hl. repeat split; assumption.
  - intro Hneg.
    assert (Hc : (0 <? w) && (0 <? h) && al w h = false).
    { destruct Hneg as [H | [H | H]].
      - apply Z.ltb_ge in H. now rewrite H.
      - apply Z.ltb_ge in H. rewrite H. now rewrite andb_false_r.
      - rewrite H. apply andb_false_r. }
    rewrite Hc in Hw, Hh, Hl.
    cbn [img_width img_height img_pixels List.length] in Hw, Hh, Hl.
    repeat split; try assumption.
    now apply length_zero_iff_nil.
Qed.

Lemma reachable_image_size_witness :
  reachable demo_rasterLine demo_allocates 2 2 demo_canvas
  /\ img_width (image demo_canvas) = 2%nat
  /\ img_height (image demo_canvas) = 2%nat
  /\ List.length (img_pixels (image demo_canvas)) = 4%nat.
Proof.
  assert (Hr : reachable demo_rasterLine demo_allocates 2 2 demo_canvas)
    by (unfold demo_canvas; repeat apply reach_step; apply reach_init).
  split; [exact Hr|].
  destruct (reachable_image_size demo_rasterLine demo_allocates 2 2
              demo_canvas Hr) as (Hpos & _).
  apply Hpos. repeat split; reflexivity.
Defined.

(** X2: no operation of the surface changes a tool width: the pen is 3
    wide, the highlighter and the eraser 20, in every reachable state. *)
Theorem reachable_tool_widths :
  forall rasterLine QImage_allocates width height self,
    reachable rasterLine QImage_allocates width height self ->
    pen_width self = 3
    /\ highlighter_width self = 20
    /\ eraser_width self = 20.
Proof.
  intros rl al w h self Hr.
  pose proof (reachable_fixed rl al w h self Hr) as (_ & Hp & Hh & He & _).
  repeat split; assumption.
Qed.

Lemma reachable_tool_widths_witness :
  reachable demo_rasterLine demo_allocates 2 2 demo_canvas
  /\ pen_width demo_canvas = 3
  /\ highlighter_width demo_canvas = 20
  /\ eraser_width demo_canvas = 20.
Proof.
  assert (Hr : reachable demo_rasterLine demo_allocates 2 2 demo_canvas)
    by (unfold demo_canvas; repeat apply reach_step; apply reach_init).
  split; [exact Hr|].
  exact (reachable_tool_widths demo_rasterLine demo_allocates 2 2
           demo_canvas Hr).
Defined.

(** X3: once the left button is released, pointer moves paint nothing,
    whatever buttons they report: the surface is the same after any number
    of them. *)
Theorem moves_after_release_paint_nothing :
  forall rasterLine self release moves,
    button release = Qt_LeftButton ->
    canvas_run rasterLine (mouseReleaseEvent self release)
      (map OpMouseMove moves)
    = mouseReleaseEvent self release.
Proof.
  intros rl self release moves Hb.
  apply moves_without_stroke.
  unfold mouseReleaseEvent. rewrite Hb, Z.eqb_refl. reflexivity.
Qed.

Lemma moves_after_release_paint_nothing_witness :
  button (mkQMouseEvent 1 0 (mkQPoint 1 1)) = Qt_LeftButton
  /\ canvas_run demo_rasterLine
       (mouseReleaseEvent
          (mousePressEvent demo_canvas (mkQMouseEvent 1 1 (mkQPoint 0 0)))
          (mkQMouseEvent 1 0 (mkQPoint 1 1)))
       (map OpMouseMove demo_moves)
     = mouseReleaseEvent
         (mousePressEvent demo_canvas (mkQMouseEvent 1 1 (mkQPoint 0 0)))
         (mkQMouseEvent 1 0 (mkQPoint 1 1)).
Proof.
  split; [reflexivity|].
  apply (moves_after_release_paint_nothing demo_rasterLine).
  reflexivity.
Defined.

Lemma no_left_press_keeps_image
    (rasterLine : QPen -> QPoint -> QPoint -> Z -> Z -> QRgb -> QRgb)
    (ops : list CanvasOp) :
  forall self,
    Forall (fun op => is_left_press op = false) ops ->
    drawing self = false ->
    QImage_fill Qt_white (image self) = image self ->
    image (canvas_run rasterLine self ops) = image self
    /\ drawing (canvas_run rasterLine self ops) = false.
Proof.
  induction ops as [|op ops IH]; intros self Hops Hd Hwhite.
  - split; [reflexivity | exact Hd].
  - inversion Hops as [|op' ops' Hop Hrest]; subst.
    assert (Hstep : image (canvas_step rasterLine self op) = image self
                    /\ drawing (canvas_step rasterLine self op) = false).
    { destruct op as [t|c|e|e|e|]; simpl.
      - split; [reflexivity | exact Hd].
      - split; [reflexivity | exact Hd].
      - simpl in Hop. unfold mousePressEvent. rewrite Hop.
        split; [reflexivity | exact Hd].
      - unfold mouseMoveEvent. rewrite Hd, andb_false_r.
        split; [reflexivity | exact Hd].
      - unfold mouseReleaseEvent.
        destruct (button e =? Qt_LeftButton);
          split; try reflexivity; exact Hd.
      - split; [exact Hwhite | exact Hd]. }
    destruct Hstep as (Hi & Hd').
    destruct (IH (canvas_step rasterLine self op) Hrest Hd') as (Hi' & Hd'').
    { now rewrite Hi. }
    simpl. split; [congruence | exact Hd''].
Qed.

(** X4: without a press of the left button nothing is ever painted: after
    any operations none of which is such a press, the image is the white
    one of the constructor and no stroke is in progress. *)
Theorem no_left_press_no_paint :
  forall rasterLine QImage_allocates width height ops,
    Forall (fun op => is_left_press op = false) ops ->
    image (canvas_run rasterLine
             (CanvasWidget_init QImage_allocates width height) ops)
    = image (CanvasWidget_init QImage_allocates width height)
    /\ drawing (canvas_run rasterLine
                  (CanvasWidget_init QImage_allocates width height) ops)
       = false.
Proof.
  intros rl al w h ops Hops.
  apply no_left_press_keeps_image.
  - exact Hops.
  - reflexivity.
  - apply QImage_fill_twice.
Qed.

Lemma no_left_press_no_paint_witness :
  Forall (fun op => is_left_press op = false)
    [OpSetTool "eraser"; OpMousePress (mkQMouseEvent 2 2 (mkQPoint 0 0));
     OpMouseMove (mkQMouseEvent 0 1 (mkQPoint 1 1)); OpClearCanvas]
  /\ image (canvas_run demo_rasterLine (CanvasWidget_init demo_allocates 2 2)
              [OpSetTool "eraser";
               OpMousePress (mkQMouseEvent 2 2 (mkQPoint 0 0));
               OpMouseMove (mkQMouseEvent 0 1 (mkQPoint 1 1));
               OpClearCanvas])
     = image (CanvasWidget_init demo_allocates 2 2).
Proof.
  assert (H : Forall (fun op => is_left_press op = false)
                [OpSetTool "eraser";
                 OpMousePress (mkQMouseEvent 2 2 (mkQPoint 0 0));
                 OpMouseMove (mkQMouseEvent 0 1 (mkQPoint 1 1));
                 OpClearCanvas])
    by (repeat constructor).
  split; [exact H|].
  exact (proj1 (no_left_press_no_paint demo_rasterLine demo_allocates 2 2 _ H)).
Defined.

(** X5: a stroke is a polyline.  A left press at [p0] followed by moves
    with the left button held at [p1], ..., [pn] leaves the image with the
    segments [p0 p1], [p1 p2], ... drawn in this order, all with the pen of
    the tool that was current at the press, and the last point at [pn]. *)
Theorem stroke_draws_polyline :
  forall rasterLine self press moves,
    button press = Qt_LeftButton ->
    Forall (fun e => Z.land (buttons e) Qt_LeftButton <> 0) moves ->
    image (canvas_run rasterLine (mousePressEvent self press)
             (map OpMouseMove moves))
    = polyline rasterLine (image self) (stroke_pen self) (pos press)
        (map pos moves)
    /\ last_point (canvas_run rasterLine (mousePressEvent self press)
                     (map OpMouseMove moves))
       = last (map pos moves) (pos press).
Proof.
  intros rl self press moves Hb Hheld.
  assert (Hpress : mousePressEvent self press
                   = {| image := image self;
                        current_tool := current_tool self;
                        pen_color := pen_color self;
                        highlight_color := highlight_color self;
                        eraser_color := eraser_color self;
                        pen_width := pen_width self;
                        highlighter_width := highlighter_width self;
                        eraser_width := eraser_width self;
                        drawing := true;
                        last_point := pos press |}).
  { unfold mousePressEvent. now rewrite Hb, Z.eqb_refl. }
  destruct (moves_in_stroke rl moves (mousePressEvent self press))
    as (Hi & Hl & _).
  - now rewrite Hpress.
  - exact Hheld.
  - rewrite Hi, Hl, Hpress. split; reflexivity.
Qed.

Lemma stroke_draws_polyline_witness :
  button (mkQMouseEvent 1 1 (mkQPoint 0 0)) = Qt_LeftButton
  /\ Forall (fun e => Z.land (buttons e) Qt_LeftButton <> 0) demo_moves
  /\ image (canvas_run demo_rasterLine
              (mousePressEvent demo_canvas (mkQMouseEvent 1 1 (mkQPoint 0 0)))
              (map OpMouseMove demo_moves))
     = drawLine demo_rasterLine
         (drawLine demo_rasterLine
            (drawLine demo_rasterLine (image demo_canvas)
               (stroke_pen demo_canvas) (mkQPoint 0 0) (mkQPoint 1 0))
            (stroke_pen demo_canvas) (mkQPoint 1 0) (mkQPoint 1 1))
         (stroke_pen demo_canvas) (mkQPoint 1 1) (mkQPoint 0 1).
Proof.
  assert (H1 : button (mkQMouseEvent 1 1 (mkQPoint 0 0)) = Qt_LeftButton)
    by reflexivity.
  assert (H2 : Forall (fun e => Z.land (buttons e) Qt_LeftButton <> 0)
                 demo_moves)
    by (repeat constructor; vm_compute; discriminate).
  split; [exact H1|]. split; [exact H2|].
  exact (proj1 (stroke_draws_polyline demo_rasterLine demo_canvas _ _ H1 H2)).
Defined.

(** X6: clearing does not end a stroke.  When the canvas is cleared while
    a stroke is in progress, the next move with the left button held draws
    its segment from the point recorded before the clearing, onto the
    white image of the constructor. *)
Theorem clearCanvas_keeps_stroke :
  forall rasterLine QImage_allocates width height self event,
    reachable rasterLine QImage_allocates width height self ->
    drawing self = true ->
    Z.land (buttons event) Qt_LeftButton <> 0 ->
    drawing (clearCanvas self) = true
    /\ image (mouseMoveEvent rasterLine (clearCanvas self) event)
       = drawLine rasterLine
           (image (CanvasWidget_init QImage_allocates width height))
           (stroke_pen self) (last_point self) (pos event).
Proof.
  intros rl al w h self event Hr Hd Hheld.
  pose proof (reachable_fixed rl al w h self Hr)
    as (_ & _ & _ & _ & Hw & Hh & Hl).
  split; [exact Hd|].
  unfold mouseMoveEvent.
  rewrite (left_button_held event Hheld).
  cbn [clearCanvas drawing andb image last_point].
  rewrite Hd.
  replace (QImage_fill Qt_white (image self))
    with (image (CanvasWidget_init al w h))
    by (symmetry; now apply QImage_fill_same_shape).
  reflexivity.
Qed.

Lemma clearCanvas_keeps_stroke_witness :
  reachable demo_rasterLine demo_allocates 2 2
    (mousePressEvent demo_canvas (mkQMouseEvent 1 1 (mkQPoint 0 0)))
  /\ drawing (mousePressEvent demo_canvas
                (mkQMouseEvent 1 1 (mkQPoint 0 0))) = true
  /\ Z.land (buttons (mkQMouseEvent 0 1 (mkQPoint 1 1))) Qt_LeftButton <> 0
  /\ image (mouseMoveEvent demo_rasterLine
              (clearCanvas
                 (mousePressEvent demo_canvas
                    (mkQMouseEvent 1 1 (mkQPoint 0 0))))
              (mkQMouseEvent 0 1 (mkQPoint 1 1)))
     = drawLine demo_rasterLine (image (CanvasWidget_init demo_allocates 2 2))
         (stroke_pen demo_canvas) (mkQPoint 0 0) (mkQPoint 1 1).
Proof.
  assert (Hr : reachable demo_rasterLine demo_allocates 2 2
                 (mousePressEvent demo_canvas
                    (mkQMouseEvent 1 1 (mkQPoint 0 0)))).
  { apply (reach_step demo_rasterLine demo_allocates 2 2 demo_canvas
             (OpMousePress (mkQMouseEvent 1 1 (mkQPoint 0 0)))).
    unfold demo_canvas; repeat apply reach_step; apply reach_init. }
  assert (Hd : drawing (mousePressEvent demo_canvas
                          (mkQMouseEvent 1 1 (mkQPoint 0 0))) = true)
    by reflexivity.
  assert (Hheld : Z.land (buttons (mkQMouseEvent 0 1 (mkQPoint 1 1)))
                    Qt_LeftButton <> 0) by (vm_compute; discriminate).
  split; [exact Hr|]. split; [exact Hd|]. split; [exact Hheld|].
  exact (proj2 (clearCanvas_keeps_stroke demo_rasterLine demo_allocates 2 2 _ _
                  Hr Hd Hheld)).
Defined.

(** * The colour picker and the widget snapshot *)

Lemma press_then_move
    (rasterLine : QPen -> QPoint -> QPoint -> Z -> Z -> QRgb -> QRgb)
    (self : CanvasWidget) (press move : QMouseEvent) :
  button press = Qt_LeftButton ->
  Z.land (buttons move) Qt_LeftButton <> 0 ->
  image (mouseMoveEvent rasterLine (mousePressEvent self press) move)
  = drawLine rasterLine (image self) (stroke_pen self)
      (pos press) (pos move).
Proof.
  intros Hb Hheld.
  unfold mouseMoveEvent, mousePressEvent.
  rewrite Hb, Z.eqb_refl, (left_button_held move Hheld).
  reflexivity.
Qed.

(** X7: a cancelled colour dialog changes nothing.  An accepted colour is
    the colour of the next pen stroke, 3 wide, and at alpha 128 the colour
    of the next highlighter stroke, 20 wide. *)
Theorem pickColor_next_strokes :
  forall rasterLine QImage_allocates width height self color press move,
    reachable rasterLine QImage_allocates width height self ->
    button press = Qt_LeftButton ->
    Z.land (buttons move) Qt_LeftButton <> 0 ->
    pickColor self color false = self
    /\ image (mouseMoveEvent rasterLine
                (mousePressEvent
                   (setTool (pickColor self color true) "pen") press) move)
       = drawLine rasterLine (image self)
           (mkQPen color 3 SolidLine RoundCap RoundJoin)
           (pos press) (pos move)
    /\ image (mouseMoveEvent rasterLine
                (mousePressEvent
                   (setTool (pickColor self color true) "highlighter") press)
                move)
       = drawLine rasterLine (image self)
           (mkQPen (QColor4 (red color) (green color) (blue color) 128) 20
              SolidLine RoundCap RoundJoin)
           (pos press) (pos move).
Proof.
  intros rl al w h self color press move Hr Hb Hheld.
  pose proof (reachable_fixed rl al w h self Hr) as (_ & Hp & Hh & _).
  split; [reflexivity|].
  rewrite !(press_then_move rl _ press move Hb Hheld).
  unfold stroke_pen, pickColor, setTool, setPenColor; simpl.
  rewrite Hp, Hh. split; reflexivity.
Qed.

Lemma pickColor_next_strokes_witness :
  reachable demo_rasterLine demo_allocates 2 2 demo_canvas
  /\ button (mkQMouseEvent 1 1 (mkQPoint 0 0)) = Qt_LeftButton
  /\ Z.land (buttons (mkQMouseEvent 0 1 (mkQPoint 1 1))) Qt_LeftButton <> 0
  /\ image (mouseMoveEvent demo_rasterLine
              (mousePressEvent
                 (setTool (pickColor demo_canvas (QColor3 200 0 0) true)
                    "highlighter")
                 (mkQMouseEvent 1 1 (mkQPoint 0 0)))
              (mkQMouseEvent 0 1 (mkQPoint 1 1)))
     = drawLine demo_rasterLine (image demo_canvas)
         (mkQPen (QColor4 200 0 0 128) 20 SolidLine RoundCap RoundJoin)
         (mkQPoint 0 0) (mkQPoint 1 1).
Proof.
  assert (Hr : reachable demo_rasterLine demo_allocates 2 2 demo_canvas)
    by (unfold demo_canvas; repeat apply reach_step; apply reach_init).
  assert (Hb : button (mkQMouseEvent 1 1 (mkQPoint 0 0)) = Qt_LeftButton)
    by reflexivity.
  assert (Hheld : Z.land (buttons (mkQMouseEvent 0 1 (mkQPoint 1 1)))
                    Qt_LeftButton <> 0) by (vm_compute; discriminate).
  split; [exact Hr|]. split; [exact Hb|]. split; [exact Hheld|].
  destruct (pickColor_next_strokes demo_rasterLine demo_allocates 2 2
              demo_canvas
              (QColor3 200 0 0) _ _ Hr Hb Hheld) as (_ & _ & Hhl).
  exact Hhl.
Defined.

(** X8: the snapshot asks Qt for an image at least 2 by 2: a widget width
    below 2 is replaced by 400 and a height below 2 by 300, other sizes are
    kept.  When Qt allocates that image the snapshot has exactly this size
    and width times height pixels; when it does not, the snapshot is the
    null image. *)
Theorem grabWidgetAsImage_size :
  forall renderWidget QImage_allocates widget_width widget_height bgColor w h,
    w = (if widget_width <? 2 then 400 else widget_width) ->
    h = (if widget_height <? 2 then 300 else widget_height) ->
    2 <= w
    /\ 2 <= h
    /\ (QImage_allocates w h = true ->
        img_width (grabWidgetAsImage renderWidget QImage_allocates
                     widget_width widget_height bgColor) = Z.to_nat w
        /\ img_height (grabWidgetAsImage renderWidget QImage_allocates
                         widget_width widget_height bgColor) = Z.to_nat h
        /\ List.length
             (img_pixels (grabWidgetAsImage renderWidget QImage_allocates
                            widget_width widget_height bgColor))
           = (Z.to_nat w * Z.to_nat h)%nat)
    /\ (QImage_allocates w h = false ->
        grabWidgetAsImage renderWidget QImage_allocates
          widget_width widget_height bgColor
        = mkQImage 0 0 []).
Proof.
  intros render al ww wh bg w h Hw Hh.
  assert (Hw2 : 2 <= w) by (subst w; destruct (Z.ltb_spec ww 2); lia).
  assert (Hh2 : 2 <= h) by (subst h; destruct (Z.ltb_spec wh 2); lia).
  split; [exact Hw2|]. split; [exact Hh2|].
  unfold grabWidgetAsImage. cbv zeta. rewrite <- Hw, <- Hh.
  unfold QImage_new.
  replace (0 <? w) with true by (symmetry; apply Z.ltb_lt; lia).
  replace (0 <? h) with true by (symmetry; apply Z.ltb_lt; lia).
  cbn [andb]. split; intro Hal; rewrite Hal.
  - cbn [QImage_fill img_width img_height img_pixels].
    rewrite mapi_from_length, !repeat_length. repeat split.
  - reflexivity.
Qed.

Lemma grabWidgetAsImage_size_witness :
  400 = (if 1 <? 2 then 400 else 1)
  /\ 2 = (if 2 <? 2 then 300 else 2)
  /\ demo_allocates 400 2 = true
  /\ img_width (grabWidgetAsImage demo_renderWidget demo_allocates 1 2
                  Qt_white) = 400%nat
  /\ img_height (grabWidgetAsImage demo_renderWidget demo_allocates 1 2
                   Qt_white) = 2%nat.
Proof.
  assert (H1 : 400 = (if 1 <? 2 then 400 else 1)) by reflexivity.
  assert (H2 : 2 = (if 2 <? 2 then 300 else 2)) by reflexivity.
  assert (H3 : demo_allocates 400 2 = true) by reflexivity.
  split; [exact H1|]. split; [exact H2|]. split; [exact H3|].
  destruct (grabWidgetAsImage_size demo_renderWidget demo_allocates 1 2
              Qt_white 400 2 H1 H2) as (_ & _ & Hyes & _).
  destruct (Hyes H3) as (Hw & Hh & _).
  split; [rewrite Hw | rewrite Hh]; reflexivity.
Defined.

(** * Further properties of the typed-math handler *)

Lemma app_ends_with_EQ (a b c : string) :
  (a ++ b = c ++ EQ)%string ->
  b <> EmptyString ->
  exists r, b = (r ++ EQ)%string.
Proof.
  revert c. induction a as [|x a IH]; intros c H Hb.
  - now exists c.
  - destruct c as [|y c].
    + simpl in H. inversion H as [[Hx Hrest]].
      destruct a; [simpl in Hrest; contradiction | discriminate].
    + simpl in H. inversion H as [[Hx Hrest]]. now apply (IH c).
Qed.

(** A text whose last line ends with [=] ends with [=] itself. *)
Lemma last_line_EQ_text_EQ (text r : string) :
  list_last (split "010"%char text) = (r ++ EQ)%string ->
  exists r', text = (r' ++ EQ)%string.
Proof.
  intro H. destruct (text_factor text) as (prefix & Htext & _).
  exists (prefix ++ r)%string.
  rewrite Htext at 1. rewrite H. now rewrite str_app_assoc.
Qed.

Lemma lacks_app (c : ascii) (a b : string) :
  lacks c (a ++ b) <-> lacks c a /\ lacks c b.
Proof.
  induction a as [|x a IH]; simpl.
  - tauto.
  - rewrite IH. tauto.
Qed.

Lemma split_single (sep : ascii) (s : string) :
  lacks sep s -> split sep s = [s].
Proof.
  induction s as [|c s IH]; simpl.
  - reflexivity.
  - intros [Hc Hs]. now rewrite Hc, (IH Hs).
Qed.

Lemma lacks_lstrip (c : ascii) (s : string) :
  lacks c s -> lacks c (lstrip s).
Proof.
  induction s as [|x s IH]; simpl.
  - trivial.
  - intros [Hx Hs]. destruct (isspace x).
    + now apply IH.
    + simpl. now split.
Qed.

Lemma lacks_rstrip (c : ascii) (s : string) :
  lacks c s -> lacks c (rstrip s).
Proof.
  induction s as [|x s IH]; simpl.
  - trivial.
  - intros [Hx Hs]. specialize (IH Hs).
    destruct (rstrip s) as [|y r].
    + destruct (isspace x); simpl; auto.
    + simpl. simpl in IH. tauto.
Qed.

Lemma lacks_strip (c : ascii) (s : string) :
  lacks c s -> lacks c (strip s).
Proof.
  intro H. unfold strip. now apply lacks_rstrip, lacks_lstrip.
Qed.

Lemma Forall_last {A : Type} (P : A -> Prop) (l : list A) (d : A) :
  Forall P l -> l <> [] -> P (last l d).
Proof.
  induction 1 as [|a l Ha Hl IH]; intro Hne.
  - contradiction.
  - destruct l as [|b l]; [exact Ha|].
    change (P (last (b :: l) d)). apply IH. discriminate.
Qed.

Lemma last_line_lacks_NL (text : string) :
  lacks "010"%char (list_last (split "010"%char text)).
Proof.
  unfold list_last. apply Forall_last.
  - apply split_lacks.
  - apply split_nonempty.
Qed.

(** X10: an evaluated line is not evaluated again.  After a rewrite whose
    result is not empty and does not end with [=], running the handler on
    the rewritten text leaves text and cursor where the first run put
    them. *)
Theorem autoEvaluate_second_run_is_idle :
  forall Expr sympify format_result fuel notes_editor raw result,
    list_last (split "010"%char (plainText notes_editor))
    = (raw ++ EQ)%string ->
    strip raw <> EmptyString ->
    evaluate Expr sympify format_result (strip raw) = Returns result ->
    result <> EmptyString ->
    (~ exists r, result = (r ++ EQ)%string) ->
    exists ed1 ed2,
      autoEvaluateTypedMath Expr sympify format_result (S fuel) notes_editor
      = Some (Returned ed1)
      /\ autoEvaluateTypedMath Expr sympify format_result (S fuel) ed1
         = Some (Returned ed2)
      /\ plainText ed1 <> plainText notes_editor
      /\ plainText ed2 = plainText ed1
      /\ cursorPosition ed2 = cursorPosition ed1.
Proof.
  intros Expr sympify format_result fuel ed0 raw result
         Hlast Hexpr Heval Hres Hnoeq.
  destruct (text_factor (plainText ed0)) as (prefix & Htext & Hjoin).
  set (text1 := join NL (list_set_last (split "010"%char (plainText ed0))
                           (strip raw ++ EQ ++ result)%string)).
  assert (Htext1 : text1
                   = ((prefix ++ strip raw ++ EQ) ++ result)%string).
  { unfold text1. rewrite Hjoin. now rewrite !str_app_assoc. }
  assert (Hnot : forall r', text1 <> (r' ++ EQ)%string).
  { intros r' H. rewrite Htext1 in H.
    apply app_ends_with_EQ in H; [|exact Hres]. contradiction. }
  exists (rewritten ed0 text1), (untouched (rewritten ed0 text1)).
  split; [|split; [|split; [|split; reflexivity]]].
  - unfold text1. rewrite <- (drop_last_app_EQ raw), <- Hlast.
    apply handler_rewrites.
    + rewrite Hlast. apply endswith_EQ_iff. now exists raw.
    + now rewrite Hlast, drop_last_app_EQ.
    + now rewrite Hlast, drop_last_app_EQ.
  - apply handler_not_ending_with_EQ.
    cbn [rewritten plainText].
    destruct (endswith (list_last (split "010"%char text1)) EQ) eqn:E;
      [|reflexivity].
    apply endswith_EQ_iff in E. destruct E as (r & Hr).
    destruct (last_line_EQ_text_EQ text1 r Hr) as (r' & Hr').
    now contradiction (Hnot r').
  - cbn [rewritten plainText]. intro H.
    apply (Hnot (prefix ++ raw)%string).
    rewrite H, Htext, Hlast. now rewrite str_app_assoc.
Qed.

Lemma autoEvaluate_second_run_is_idle_witness :
  list_last (split "010"%char (plainText (mkNotes " 2+2 =")))
  = (" 2+2 " ++ EQ)%string
  /\ strip " 2+2 " <> EmptyString
  /\ evaluate Z demo_sympify demo_format (strip " 2+2 ") = Returns "4"%string
  /\ "4"%string <> EmptyString
  /\ (~ exists r, "4"%string = (r ++ EQ)%string)
  /\ exists ed1 ed2,
      autoEvaluateTypedMath Z demo_sympify demo_format 1 (mkNotes " 2+2 =")
      = Some (Returned ed1)
      /\ autoEvaluateTypedMath Z demo_sympify demo_format 1 ed1
         = Some (Returned ed2)
      /\ plainText ed2 = plainText ed1.
Proof.
  assert (H1 : list_last (split "010"%char (plainText (mkNotes " 2+2 =")))
               = (" 2+2 " ++ EQ)%string) by reflexivity.
  assert (H2 : strip " 2+2 " <> EmptyString) by (vm_compute; discriminate).
  assert (H3 : evaluate Z demo_sympify demo_format (strip " 2+2 ")
               = Returns "4"%string) by reflexivity.
  assert (H4 : "4"%string <> EmptyString) by discriminate.
  assert (H5 : ~ exists r, "4"%string = (r ++ EQ)%string).
  { intros (r & Hr). destruct r as [|c r]; [discriminate|].
    destruct r; discriminate. }
  split; [exact H1|]. split; [exact H2|]. split; [exact H3|].
  split; [exact H4|]. split; [exact H5|].
  destruct (autoEvaluate_second_run_is_idle Z demo_sympify demo_format 0%nat
              _ _ _ H1 H2 H3 H4 H5) as (ed1 & ed2 & R1 & R2 & _ & Ht & _).
  exists ed1, ed2. split; [exact R1|]. split; [exact R2 | exact Ht].
Defined.

(** X11: when the evaluated result has no line break, a rewrite keeps the
    number of lines, and the last line of the new text is the stripped
    expression, [=] and the result. *)
Theorem autoEvaluate_keeps_line_count :
  forall Expr sympify format_result fuel notes_editor raw result,
    list_last (split "010"%char (plainText notes_editor))
    = (raw ++ EQ)%string ->
    strip raw <> EmptyString ->
    evaluate Expr sympify format_result (strip raw) = Returns result ->
    lacks "010"%char result ->
    exists ed,
      autoEvaluateTypedMath Expr sympify format_result (S fuel) notes_editor
      = Some (Returned ed)
      /\ split "010"%char (plainText ed)
         = (removelast (split "010"%char (plainText notes_editor))
            ++ [(strip raw ++ EQ ++ result)%string])%list
      /\ List.length (split "010"%char (plainText ed))
         = List.length (split "010"%char (plainText notes_editor))
      /\ list_last (split "010"%char (plainText ed))
         = (strip raw ++ EQ ++ result)%string.
Proof.
  intros Expr sympify format_result fuel ed0 raw result
         Hlast Hexpr Heval Hres.
  set (new_line := (strip raw ++ EQ ++ result)%string).
  assert (Hline : lacks "010"%char new_line).
  { pose proof (last_line_lacks_NL (plainText ed0)) as H.
    rewrite Hlast in H. apply lacks_app in H. destruct H as (Hraw & Heq).
    unfold new_line. apply lacks_app. split; [now apply lacks_strip|].
    apply lacks_app. now split. }
  assert (Hsplit :
            split "010"%char
              (join NL (list_set_last (split "010"%char (plainText ed0))
                          new_line))
            = (removelast (split "010"%char (plainText ed0))
               ++ [new_line])%list).
  { unfold list_set_last, NL. rewrite split_join_snoc.
    - now rewrite (split_single _ _ Hline).
    - apply Forall_removelast, split_lacks. }
  exists (rewritten ed0
            (join NL (list_set_last (split "010"%char (plainText ed0))
                        new_line))).
  split; [|cbn [rewritten plainText]; rewrite Hsplit; split; [|split]].
  - unfold new_line. rewrite <- (drop_last_app_EQ raw), <- Hlast.
    apply handler_rewrites.
    + rewrite Hlast. apply endswith_EQ_iff. now exists raw.
    + now rewrite Hlast, drop_last_app_EQ.
    + now rewrite Hlast, drop_last_app_EQ.
  - reflexivity.
  - rewrite length_app, removelast_length. simpl.
    pose proof (split_nonempty "010"%char (plainText ed0)) as Hne.
    destruct (split "010"%char (plainText ed0)); [contradiction|].
    simpl. lia.
  - unfold list_last. apply last_last.
Qed.

Lemma autoEvaluate_keeps_line_count_witness :
  list_last (split "010"%char
               (plainText (mkNotes ("a" ++ NL ++ NL ++ "2+2="))))
  = ("2+2" ++ EQ)%string
  /\ strip "2+2" <> EmptyString
  /\ evaluate Z demo_sympify demo_format (strip "2+2") = Returns "4"%string
  /\ lacks "010"%char "4"
  /\ exists ed,
      autoEvaluateTypedMath Z demo_sympify demo_format 1
        (mkNotes ("a" ++ NL ++ NL ++ "2+2=")) = Some (Returned ed)
      /\ split "010"%char (plainText ed)
         = ["a"%string; EmptyString; "2+2=4"%string].
Proof.
  assert (H1 : list_last (split "010"%char
                 (plainText (mkNotes ("a" ++ NL ++ NL ++ "2+2="))))
               = ("2+2" ++ EQ)%string) by reflexivity.
  assert (H2 : strip "2+2" <> EmptyString) by (vm_compute; discriminate).
  assert (H3 : evaluate Z demo_sympify demo_format (strip "2+2")
               = Returns "4"%string) by reflexivity.
  assert (H4 : lacks "010"%char "4") by (simpl; auto).
  split; [exact H1|]. split; [exact H2|]. split; [exact H3|].
  split; [exact H4|].
  destruct (autoEvaluate_keeps_line_count Z demo_sympify demo_format 0%nat
              _ _ _ H1 H2 H3 H4) as (ed & Hrun & Hsplit & _).
  exists ed. split; [exact Hrun | rewrite Hsplit; reflexivity].
Defined.

(** X12: the handler acts only on a text whose last character is [=]: on
    any other text, the empty one included, it returns with text and cursor
    as they were, and the evaluator's answer does not matter. *)
Theorem autoEvaluate_idle_without_final_EQ :
  forall Expr sympify format_result fuel notes_editor,
    (~ exists r, plainText notes_editor = (r ++ EQ)%string) ->
    exists ed,
      autoEvaluateTypedMath Expr sympify format_result (S fuel) notes_editor
      = Some (Returned ed)
      /\ plainText ed = plainText notes_editor
      /\ cursorPosition ed = cursorPosition notes_editor.
Proof.
  intros Expr sympify format_result fuel ed0 Hno.
  exists (untouched ed0). split; [|split; reflexivity].
  apply handler_not_ending_with_EQ.
  destruct (endswith (list_last (split "010"%char (plainText ed0))) EQ)
    eqn:E; [|reflexivity].
  apply endswith_EQ_iff in E. destruct E as (r & Hr).
  apply last_line_EQ_text_EQ in Hr. contradiction.
Qed.

Lemma autoEvaluate_idle_without_final_EQ_witness :
  (~ exists r, plainText (mkNotes ("2+2=" ++ NL)) = (r ++ EQ)%string)
  /\ exists ed,
      autoEvaluateTypedMath Z demo_sympify demo_format 1
        (mkNotes ("2+2=" ++ NL)) = Some (Returned ed)
      /\ plainText ed = ("2+2=" ++ NL)%string.
Proof.
  assert (H : ~ exists r,
               plainText (mkNotes ("2+2=" ++ NL)) = (r ++ EQ)%string).
  { intros (r & Hr). apply (f_equal (fun s => endswith s EQ)) in Hr.
    rewrite (proj2 (endswith_EQ_iff (r ++ EQ)) (ex_intro _ r eq_refl)) in Hr.
    vm_compute in Hr. discriminate. }
  split; [exact H|].
  destruct (autoEvaluate_idle_without_final_EQ Z demo_sympify demo_format
              0%nat (mkNotes ("2+2=" ++ NL)) H) as (ed & Hrun & Htext & _).
  exists ed. split; [exact Hrun | exact Htext].
Defined.

(** X13: when the expression before the final [=] has no surrounding
    whitespace, a rewrite only appends: the new text is the old text
    followed by the result. *)
Theorem autoEvaluate_appends_result :
  forall Expr sympify format_result fuel notes_editor raw result,
    list_last (split "010"%char (plainText notes_editor))
    = (raw ++ EQ)%string ->
    strip raw = raw ->
    raw <> EmptyString ->
    evaluate Expr sympify format_result raw = Returns result ->
    exists ed,
      autoEvaluateTypedMath Expr sympify format_result (S fuel) notes_editor
      = Some (Returned ed)
      /\ plainText ed = (plainText notes_editor ++ result)%string.
Proof.
  intros Expr sympify format_result fuel ed0 raw result
         Hlast Hstrip Hraw Heval.
  destruct (text_factor (plainText ed0)) as (prefix & Htext & Hjoin).
  exists (rewritten ed0
            (join NL (list_set_last (split "010"%char (plainText ed0))
                        (raw ++ EQ ++ result)%string))).
  split.
  - pose proof (handler_rewrites Expr sympify format_result fuel ed0 result)
      as H.
    cbv zeta in H. rewrite Hlast, drop_last_app_EQ, Hstrip in H.
    apply H.
    + apply endswith_EQ_iff. now exists raw.
    + exact Hraw.
    + exact Heval.
  - cbn [rewritten plainText]. rewrite Hjoin.
    rewrite Hlast in Htext. rewrite Htext.
    now rewrite !str_app_assoc.
Qed.

Lemma autoEvaluate_appends_result_witness :
  list_last (split "010"%char (plainText (mkNotes ("x" ++ NL ++ "sin(0)="))))
  = ("sin(0)" ++ EQ)%string
  /\ strip "sin(0)" = "sin(0)"%string
  /\ "sin(0)"%string <> EmptyString
  /\ evaluate Z demo_sympify demo_format "sin(0)" = Returns "0"%string
  /\ exists ed,
      autoEvaluateTypedMath Z demo_sympify demo_format 1
        (mkNotes ("x" ++ NL ++ "sin(0)=")) = Some (Returned ed)
      /\ plainText ed = ("x" ++ NL ++ "sin(0)=0")%string.
Proof.
  assert (H1 : list_last (split "010"%char
                 (plainText (mkNotes ("x" ++ NL ++ "sin(0)="))))
               = ("sin(0)" ++ EQ)%string) by reflexivity.
  assert (H2 : strip "sin(0)" = "sin(0)"%string) by reflexivity.
  assert (H3 : "sin(0)"%string <> EmptyString) by discriminate.
  assert (H4 : evaluate Z demo_sympify demo_format "sin(0)"
               = Returns "0"%string) by reflexivity.
  split; [exact H1|]. split; [exact H2|]. split; [exact H3|].
  split; [exact H4|].
  destruct (autoEvaluate_appends_result Z demo_sympify demo_format 0%nat
              _ _ _ H1 H2 H3 H4) as (ed & Hrun & Htext).
  exists ed. split; [exact Hrun | rewrite Htext; reflexivity].
Defined.


